(** * Location-PopUp-App: the proximity ranking of the home screen and the
      flash-message relay

    The development embeds

    - [src/services/flash.ts]: the module-level slot [_flashMessage] with
      [setFlash] and [consumeFlash];
    - [src/app/(tabs)/index.tsx]: [calculateDistance],
      [getNearestCustomerInfo] (the spec's findNearestEligible) and the chain
      [filteredCustomers] / [customersWithDistance] / [sortedCustomers]
      (the spec's filterAndRank); then, in [Home], the conditions of the
      render, [openDirectionsInApp], the mount effect that reads the flash
      message, and [loadCustomers];
    - [src/app/(tabs)/add-customer.tsx]: [handleSubmit] up to the request,
      in [AddCustomer].

    JavaScript values are modelled as follows.

    - A [number] is an IEEE 754 binary64 value: Rocq's primitive [float],
      with its arithmetic.
    - A string is a [string] whose characters are read as UTF-16 code units
      below 256 (the Latin-1 range); [toLowerCase] and [trim] are written out
      for that range.
    - [T | null] and optional fields are [option T].
    - The functions of [Math] that ECMA-262 leaves implementation-approximated
      ([Math.sin], [Math.cos], [Math.sqrt], [Math.atan2]) are an interface the
      development is parametric in.  [Math.round] is computed as ECMA-262
      defines it; its result, an integer, [NaN] or an infinity, is a
      [JS.integral], with the comparisons and the subtraction of numbers on
      such values.  A distance can be [NaN]: [calculateDistance] returns it
      for some far pairs of points, and the scan, the comparator and the
      render conditions are stated for it too.
    - Arrays and objects are values; a second model keeps them in a heap,
      with allocation and in-place update, to state what the code writes. *)

From Stdlib Require Import ZArith List String Ascii Floats Lia Bool.
From Stdlib Require Import Sorted Permutation.
From stdpp Require Import base tactics option list gmap.
Import ListNotations.

Local Open Scope string_scope.
Local Open Scope list_scope.
Local Open Scope Z_scope.

(* stdpp blocks the unfolding of string concatenation; the proofs about
   [includes] compute with it. *)
Local Arguments String.append !_ _ / : simpl nomatch.

(** ** JavaScript strings and numbers *)

Module JS.

(** [number]: a binary64 floating-point value. *)
Abbreviation number := float (only parsing).

(** ToBoolean on a number: false for [+0], [-0] and [NaN], true otherwise. *)
Definition truthy (x : number) : bool :=
  negb (PrimFloat.eqb x 0%float) && PrimFloat.eqb x x.

(** [x === 0] on [number | null]: true for [+0] and [-0]. *)
Definition isZero (x : option number) : bool :=
  match x with
  | None => false
  | Some v => PrimFloat.eqb v 0%float
  end.

(** ToBoolean on [number | null]. *)
Definition truthy_opt (x : option number) : bool :=
  match x with
  | None => false
  | Some v => truthy v
  end.

(** ToBoolean on a string: false exactly for the empty string. *)
Definition truthy_string (s : string) : bool :=
  match s with
  | EmptyString => false
  | String _ _ => true
  end.

(** Lower-casing of one code unit below 256: [A]-[Z] and the Latin-1 capitals
    U+00C0 to U+00DE (without the multiplication sign U+00D7) move up by 32,
    every other unit is its own lower case. *)
Definition lowerUnit (c : ascii) : ascii :=
  let n := N_of_ascii c in
  if ((65 <=? n) && (n <=? 90) ||
      (192 <=? n) && (n <=? 222) && negb (n =? 215))%N
  then ascii_of_N (n + 32)
  else c.

(** [String.prototype.toLowerCase]. *)
Fixpoint toLowerCase (s : string) : string :=
  match s with
  | EmptyString => EmptyString
  | String c s' => String (lowerUnit c) (toLowerCase s')
  end.

(** White space and line terminators below 256: TAB, LF, VT, FF, CR, SP and
    the no-break space. *)
Definition isWhiteSpace (c : ascii) : bool :=
  let n := N_of_ascii c in
  ((9 <=? n) && (n <=? 13) || (n =? 32) || (n =? 160))%N.

Fixpoint trimStart (s : string) : string :=
  match s with
  | EmptyString => EmptyString
  | String c s' => if isWhiteSpace c then trimStart s' else s
  end.

Fixpoint trimEnd (s : string) : string :=
  match s with
  | EmptyString => EmptyString
  | String c s' =>
      match trimEnd s' with
      | EmptyString => if isWhiteSpace c then EmptyString else String c EmptyString
      | t => String c t
      end
  end.

(** [String.prototype.trim]. *)
Definition trim (s : string) : string := trimEnd (trimStart s).

(** [String.prototype.includes]: [q] occurs in [s] at some position. *)
Fixpoint includes (s q : string) : bool :=
  String.prefix q s ||
  match s with
  | EmptyString => false
  | String _ s' => includes s' q
  end.

(** The numbers [Math.round] returns, which are the distances the code
    compares: [NaN], an infinity, or an integral number, kept as the integer
    it is (binary64 holds every result of [Math.round] exactly; [-0] is read
    as [0], from which no test of the code tells it apart). *)
Inductive integral : Type :=
| NaN
| NegInfinity
| Int (z : Z)
| Infinity.

(** [a < b]: false when either side is [NaN]. *)
Definition lt (a b : integral) : bool :=
  match a, b with
  | NaN, _ => false
  | _, NaN => false
  | NegInfinity, NegInfinity => false
  | NegInfinity, _ => true
  | Int _, NegInfinity => false
  | Int x, Int y => x <? y
  | Int _, Infinity => true
  | Infinity, _ => false
  end.

(** [a <= b]: false when either side is [NaN]. *)
Definition le (a b : integral) : bool :=
  match a, b with
  | NaN, _ => false
  | _, NaN => false
  | NegInfinity, _ => true
  | Int _, NegInfinity => false
  | Int x, Int y => x <=? y
  | Int _, Infinity => true
  | Infinity, Infinity => true
  | Infinity, _ => false
  end.

(** [a - b]: [NaN] when either side is [NaN] and for the difference of two
    equal infinities.  The difference of two integers is kept exact; binary64
    rounds it once it needs more than 53 bits, which changes neither its sign
    nor whether it is zero, and the code reads nothing else of it. *)
Definition sub (a b : integral) : integral :=
  match a, b with
  | NaN, _ => NaN
  | _, NaN => NaN
  | Infinity, Infinity => NaN
  | NegInfinity, NegInfinity => NaN
  | Infinity, _ => Infinity
  | NegInfinity, _ => NegInfinity
  | Int _, Infinity => NegInfinity
  | Int _, NegInfinity => Infinity
  | Int x, Int y => Int (x - y)
  end.

(** The two numbers are the same value ([NaN] being the same as [NaN]). *)
Definition same (a b : integral) : bool :=
  match a, b with
  | NaN, NaN => true
  | NegInfinity, NegInfinity => true
  | Int x, Int y => x =? y
  | Infinity, Infinity => true
  | _, _ => false
  end.

(** [s || ""] on a string. *)
Definition orEmpty (s : string) : string :=
  if truthy_string s then s else "".

(** Two strings are equal up to letter case. *)
Definition equalsIgnoringCase (a b : string) : Prop :=
  toLowerCase a = toLowerCase b.

(** [q] occurs in [s] up to letter case: some stretch of [s] equals [q] up to
    letter case. *)
Definition containsIgnoringCase (s q : string) : Prop :=
  exists pre mid post,
    s = (pre ++ mid ++ post)%string /\ equalsIgnoringCase mid q.

End JS.

Arguments JS.lt !_ !_ / : simpl nomatch.
Arguments JS.le !_ !_ / : simpl nomatch.
Arguments JS.sub !_ !_ / : simpl nomatch.
Arguments JS.same !_ !_ / : simpl nomatch.

(** ** [src/services/flash.ts] *)

Module Flash.

(** The module-level variable [_flashMessage : string | null]. *)
Definition slot : Type := option string.

(** [let _flashMessage = null]. *)
Definition initial : slot := None.

(** [setFlash(message)]: overwrite the slot; no result. *)
Definition setFlash (message : string) (s : slot) : unit * slot :=
  (tt, Some message).

(** [consumeFlash()]: read the slot, reset it to [null], return what was
    read. *)
Definition consumeFlash (s : slot) : option string * slot :=
  let m := s in
  (m, None).

(** A call of one of the two exported functions. *)
Inductive call : Type :=
| SetFlash (message : string)
| ConsumeFlash.

(** What a call returns: nothing for [setFlash], the value read for
    [consumeFlash]. *)
Inductive outcome : Type :=
| Void
| Returned (m : option string).

Definition step (c : call) (s : slot) : outcome * slot :=
  match c with
  | SetFlash m => let '(_, s') := setFlash m s in (Void, s')
  | ConsumeFlash => let '(r, s') := consumeFlash s in (Returned r, s')
  end.

(** Run a sequence of calls from slot [s]: the outcomes in call order and
    the final slot. *)
Fixpoint run (cs : list call) (s : slot) : list outcome * slot :=
  match cs with
  | [] => ([], s)
  | c :: cs' =>
      let '(o, s1) := step c s in
      let '(os, s2) := run cs' s1 in
      (o :: os, s2)
  end.

End Flash.

(** ** [src/app/(tabs)/index.tsx]: distance *)

(** The functions of the [Math] object used by [calculateDistance] that
    ECMA-262 specifies only up to an implementation-chosen approximation:
    [Math.sin], [Math.cos], [Math.atan2] and [Math.sqrt].  The engine's
    versions are taken as an interface. *)
Class Math : Type := {
  Math_sin : JS.number -> JS.number;
  Math_cos : JS.number -> JS.number;
  Math_sqrt : JS.number -> JS.number;
  Math_atan2 : JS.number -> JS.number -> JS.number
}.

(** [Math.round(x)]: [NaN] and the infinities are returned as they are; a
    finite [x = (-1)^s * m * 2^e] gives the integer [floor (x + 1/2)]. *)
Definition Math_round (x : JS.number) : JS.integral :=
  match Prim2SF x with
  | S754_nan => JS.NaN
  | S754_infinity s => if s then JS.NegInfinity else JS.Infinity
  | S754_zero _ => JS.Int 0
  | S754_finite s m e =>
      let v := if s then Z.neg m else Z.pos m in
      JS.Int (if 0 <=? e then v * 2 ^ e
              else (2 * v + 2 ^ (- e)) / 2 ^ (- e + 1))
  end.

(** [Math.PI]: the binary64 value nearest to pi, 3.141592653589793. *)
Definition Math_PI : JS.number := 0x1.921fb54442d18p+1%float.

(** [calculateDistance(lat1, lon1, lat2, lon2)]: the haversine formula on an
    Earth of radius 6371000 m, in binary64 arithmetic, then [Math.round]. *)
Definition calculateDistance `{Math} (lat1 lon1 lat2 lon2 : JS.number)
    : JS.integral :=
  let R := 6371000%float in
  let dLat := ((lat2 - lat1) * Math_PI / 180)%float in
  let dLon := ((lon2 - lon1) * Math_PI / 180)%float in
  let a :=
    (Math_sin (dLat / 2) * Math_sin (dLat / 2) +
     Math_cos (lat1 * Math_PI / 180) *
       Math_cos (lat2 * Math_PI / 180) *
       Math_sin (dLon / 2) *
       Math_sin (dLon / 2))%float in
  let c := (2 * Math_atan2 (Math_sqrt a) (Math_sqrt (1 - a)))%float in
  let distance := (R * c)%float in
  Math_round distance.

(** ** [src/app/(tabs)/index.tsx]: data *)

(** [type Customer]. *)
Record Customer : Type := mkCustomer {
  _id : string;
  name : string;
  address : string;
  latitude : option JS.number;
  longitude : option JS.number;
  orderDetails : option string;
  deliveryPerson : option string;
  status : string;
  deliveryDate : string;
  createdAt : string;
  updatedAt : string
}.

(** The state [currentLocation : { latitude, longitude } | null] holds a
    [Coords.t] or nothing. *)
Module Coords.
Record t : Type := mk { latitude : JS.number; longitude : JS.number }.
End Coords.

(** [{ ...customer, distance }]: a copy of the customer's fields with one more
    field.  [WithDistance JS.integral] is [Customer & { distance: number }];
    [WithDistance (option JS.integral)] is the element type of
    [customersWithDistance], whose [distance] starts as [null]. *)
Record WithDistance (D : Type) : Type := mkWithDistance {
  customer : Customer;
  distance : D
}.
Arguments mkWithDistance {D} _ _.
Arguments customer {D} _.
Arguments distance {D} _.

(** ** [getNearestCustomerInfo] *)

(** [distance < minDistance], for the [minDistance] that starts as
    [Infinity] and is later assigned distances. *)
Definition ltMinimum (distance minDistance : JS.integral) : bool :=
  JS.lt distance minDistance.

(** [customer.status && customer.status.toLowerCase() === "delivered"]. *)
Definition statusIsDelivered (c : Customer) : bool :=
  JS.truthy_string (status c) &&
  String.eqb (JS.toLowerCase (status c)) "delivered".

(** The two variables the [forEach] callback assigns: [nearest] and
    [minDistance]. *)
Definition ScanState : Type :=
  (option (WithDistance JS.integral) * JS.integral)%type.

(** One call of the [forEach] callback. *)
Definition scanCustomer `{Math} (currentLocation : Coords.t)
    (st : ScanState) (c : Customer) : ScanState :=
  match latitude c, longitude c with
  | Some lat, Some lon =>
      if negb (JS.truthy lat) || negb (JS.truthy lon) then st
      else if statusIsDelivered c then st
      else
        let distance :=
          calculateDistance (Coords.latitude currentLocation)
            (Coords.longitude currentLocation) lat lon in
        if ltMinimum distance (snd st)
        then (Some (mkWithDistance c distance), distance)
        else st
  | _, _ => st
  end.

(** What the callback does with [c], in one value: [None] if it returns early
    (a falsy coordinate or a delivered status), otherwise the distance it
    compares with [minDistance]. *)
Definition candidate `{Math} (currentLocation : Coords.t) (c : Customer)
    : option JS.integral :=
  match latitude c, longitude c with
  | Some lat, Some lon =>
      if JS.truthy lat && JS.truthy lon && negb (statusIsDelivered c)
      then Some (calculateDistance (Coords.latitude currentLocation)
                   (Coords.longitude currentLocation) lat lon)
      else None
  | _, _ => None
  end.

(** The distance of a customer the scan can pick: the callback does not
    return early and the distance is below the [Infinity] that [minDistance]
    starts from, so it is a number and not [NaN]. *)
Definition measured `{Math} (currentLocation : Coords.t) (c : Customer)
    : option JS.integral :=
  match candidate currentLocation c with
  | Some d => if JS.lt d JS.Infinity then Some d else None
  | None => None
  end.

(** [getNearestCustomerInfo()], the spec's findNearestEligible, as a function
    of the [customers] and [currentLocation] it reads. *)
Definition getNearestCustomerInfo `{Math} (customers : list Customer)
    (currentLocation : option Coords.t)
    : option (WithDistance JS.integral) :=
  match currentLocation with
  | None => None
  | Some here =>
      fst (fold_left (scanCustomer here) customers (None, JS.Infinity))
  end.

(** ** [filteredCustomers], [customersWithDistance], [sortedCustomers] *)

(** [(c.status || "").toLowerCase() === "delivered"]. *)
Definition isDelivered (c : Customer) : bool :=
  String.eqb (JS.toLowerCase (JS.orEmpty (status c))) "delivered".

(** [field && field.toLowerCase().includes(q)] on an optional field, read as a
    condition: an absent ([undefined]) or empty field is falsy. *)
Definition optionalIncludes (field : option string) (q : string) : bool :=
  match field with
  | None => false
  | Some s => JS.truthy_string s && JS.includes (JS.toLowerCase s) q
  end.

(** The callback of [customers.filter]. *)
Definition keepCustomer (searchQuery : string) (c : Customer) : bool :=
  if isDelivered c then false
  else
    let q := JS.toLowerCase (JS.trim searchQuery) in
    if negb (JS.truthy_string q) then true
    else
      JS.includes (JS.toLowerCase (name c)) q ||
      JS.includes (JS.toLowerCase (address c)) q ||
      optionalIncludes (deliveryPerson c) q ||
      optionalIncludes (orderDetails c) q.

Definition filteredCustomers (customers : list Customer)
    (searchQuery : string) : list Customer :=
  List.filter (keepCustomer searchQuery) customers.

(** The callback of [filteredCustomers.map]: [distance] is [null] unless
    [currentLocation && c.latitude && c.longitude] is truthy. *)
Definition attachDistance `{Math} (currentLocation : option Coords.t)
    (c : Customer) : WithDistance (option JS.integral) :=
  let distance :=
    match currentLocation, latitude c, longitude c with
    | Some here, Some lat, Some lon =>
        if JS.truthy lat && JS.truthy lon
        then Some (calculateDistance (Coords.latitude here)
                     (Coords.longitude here) lat lon)
        else None
    | _, _, _ => None
    end in
  mkWithDistance c distance.

Definition customersWithDistance `{Math} (customers : list Customer)
    (currentLocation : option Coords.t) (searchQuery : string)
    : list (WithDistance (option JS.integral)) :=
  List.map (attachDistance currentLocation)
    (filteredCustomers customers searchQuery).

(** The comparator passed to [sort]: [a.distance - b.distance] is [NaN]
    when either distance is. *)
Definition compareDistance (a b : WithDistance (option JS.integral))
    : JS.integral :=
  match distance a, distance b with
  | None, None => JS.Int 0
  | None, Some _ => JS.Int 1
  | Some _, None => JS.Int (-1)
  | Some da, Some db => JS.sub da db
  end.

(** The [distance] field of [e] is [k]. *)
Definition distanceIs (k : option JS.integral)
    (e : WithDistance (option JS.integral)) : bool :=
  match distance e, k with
  | Some a, Some b => JS.same a b
  | None, None => true
  | _, _ => false
  end.

(** Both entries carry a distance, and [a.distance <= b.distance]. *)
Definition distanceLe (a b : WithDistance (option JS.integral)) : Prop :=
  match distance a, distance b with
  | Some da, Some db => JS.le da db = true
  | _, _ => False
  end.

(** The [distance] field of [e] is not [NaN]: it is [null], an integer or an
    infinity. *)
Definition distanceNotNaN (e : WithDistance (option JS.integral)) : Prop :=
  distance e <> Some JS.NaN.

(** [Array.prototype.sort(comparefn)].  The sort reads of a comparator result
    [v] only its sign, a [NaN] counting as [0].  ECMA-262 (since ES2019)
    requires the sort to be stable, and for a comparator that is a consistent
    ordering the result is then determined: the elements in comparator order,
    equal ones in their order in the array.  It is computed here by insertion:
    an element goes in front of the already sorted later elements up to the
    first one the comparator does not put before it, that is, past those [y]
    with [0 < comparefn x y].  For a comparator that is not a consistent
    ordering, as [compareDistance] is among distances of which one is [NaN],
    ECMA-262 leaves the order to the implementation; the properties of the
    order below are stated for lists without a [NaN] distance, and for a
    list of two elements, where there is one comparison to make. *)
Fixpoint sortInsert {A : Type} (comparefn : A -> A -> JS.integral) (x : A)
    (sorted : list A) : list A :=
  match sorted with
  | [] => [x]
  | y :: rest =>
      if JS.lt (JS.Int 0) (comparefn x y)
      then y :: sortInsert comparefn x rest
      else x :: y :: rest
  end.

Fixpoint Array_sort {A : Type} (comparefn : A -> A -> JS.integral)
    (l : list A) : list A :=
  match l with
  | [] => []
  | x :: l' => sortInsert comparefn x (Array_sort comparefn l')
  end.

(** The comparator does not ask for [x] after [y]: [comparefn x y] is
    negative, zero or [NaN]. *)
Definition keepsBefore {A : Type} (comparefn : A -> A -> JS.integral)
    (x y : A) : Prop :=
  JS.lt (JS.Int 0) (comparefn x y) = false.

(** [sortedCustomers], the spec's filterAndRank, as a function of the
    [customers], [currentLocation] and [searchQuery] it reads. *)
Definition sortedCustomers `{Math} (customers : list Customer)
    (currentLocation : option Coords.t) (searchQuery : string)
    : list (WithDistance (option JS.integral)) :=
  Array_sort compareDistance
    (customersWithDistance customers currentLocation searchQuery).

(** ** The same code on a heap of objects

    The list and the nearest-customer card are computed from arrays and
    objects that the component shares with the rest of the screen.  To speak
    about what the code writes, the arrays and records live in a heap:
    [filter] and [map] allocate a new array, the spread [{ ...c, distance }]
    allocates a new object, and [sort] reorders the array it is called on, in
    place. *)

Module Heap.

(** References to heap objects. *)
Definition loc : Type := positive.

Inductive Obj : Type :=
| OCustomer (c : Customer)
| OWithDistance (e : WithDistance (option JS.integral))
| ONearest (n : WithDistance JS.integral)
| OArray (elems : list loc).

(** A computation on the heap; [None] is a [TypeError] (a reference that does
    not hold the kind of object the code reads from it). *)
Definition M (A : Type) : Type :=
  gmap loc Obj -> option (A * gmap loc Obj).

Definition ret {A : Type} (a : A) : M A := fun h => Some (a, h).

Definition bind {A B : Type} (m : M A) (k : A -> M B) : M B :=
  fun h =>
    match m h with
    | Some (a, h') => k a h'
    | None => None
    end.

Notation "'let!' x ':=' m 'in' k" := (bind m (fun x => k))
  (at level 10, x name, k at level 200).

(** A new object at a reference not in use. *)
Definition alloc (o : Obj) : M loc :=
  fun h => let l := fresh (dom h) in Some (l, <[l := o]> h).

Definition readCustomer (l : loc) : M Customer :=
  fun h =>
    match h !! l with
    | Some (OCustomer c) => Some (c, h)
    | _ => None
    end.

Definition readWithDistance (l : loc)
    : M (WithDistance (option JS.integral)) :=
  fun h =>
    match h !! l with
    | Some (OWithDistance e) => Some (e, h)
    | _ => None
    end.

Definition readArray (l : loc) : M (list loc) :=
  fun h =>
    match h !! l with
    | Some (OArray elems) => Some (elems, h)
    | _ => None
    end.

(** Overwrite the elements of the array at [l]. *)
Definition writeArray (l : loc) (elems : list loc) : M unit :=
  fun h =>
    match h !! l with
    | Some (OArray _) => Some (tt, <[l := OArray elems]> h)
    | _ => None
    end.

Fixpoint mapM {A B : Type} (f : A -> M B) (l : list A) : M (list B) :=
  match l with
  | [] => ret []
  | x :: l' => let! y := f x in let! ys := mapM f l' in ret (y :: ys)
  end.

Fixpoint filterM {A : Type} (f : A -> M bool) (l : list A) : M (list A) :=
  match l with
  | [] => ret []
  | x :: l' =>
      let! b := f x in let! ys := filterM f l' in ret (if b then x :: ys else ys)
  end.

Fixpoint foldM {A S : Type} (f : S -> A -> M S) (l : list A) (s : S) : M S :=
  match l with
  | [] => ret s
  | x :: l' => let! s' := f s x in foldM f l' s'
  end.

(** [customers.filter(c => ...)]: a new array holding the references the
    callback keeps. *)
Definition filteredCustomers (customers : loc) (searchQuery : string)
    : M loc :=
  let! elems := readArray customers in
  let! kept :=
    filterM (fun l => let! c := readCustomer l in
                      ret (keepCustomer searchQuery c)) elems in
  alloc (OArray kept).

(** [filteredCustomers.map(c => { ...; return { ...c, distance } })]: a new
    array of new objects. *)
Definition customersWithDistance `{Math} (customers : loc)
    (currentLocation : option Coords.t) (searchQuery : string) : M loc :=
  let! filtered := filteredCustomers customers searchQuery in
  let! elems := readArray filtered in
  let! entries :=
    mapM (fun l => let! c := readCustomer l in
                   alloc (OWithDistance (attachDistance currentLocation c)))
         elems in
  alloc (OArray entries).

(** [array.sort(comparefn)]: the comparator reads the objects behind the
    references; the array is reordered in place and returned. *)
Definition sort
    (comparefn : WithDistance (option JS.integral) ->
                 WithDistance (option JS.integral) -> JS.integral)
    (array : loc) : M loc :=
  let! elems := readArray array in
  let! values := mapM readWithDistance elems in
  let sorted :=
    Array_sort (fun a b => comparefn (snd a) (snd b))
      (combine elems values) in
  let! u := writeArray array (List.map fst sorted) in
  ret array.

Definition sortedCustomers `{Math} (customers : loc)
    (currentLocation : option Coords.t) (searchQuery : string) : M loc :=
  let! withDistance :=
    customersWithDistance customers currentLocation searchQuery in
  sort compareDistance withDistance.

(** One call of the [forEach] callback of [getNearestCustomerInfo]:
    [nearest = { ...customer, distance }] allocates. *)
Definition scanCustomer `{Math} (currentLocation : Coords.t)
    (st : option loc * JS.integral) (l : loc)
    : M (option loc * JS.integral) :=
  let! c := readCustomer l in
  match latitude c, longitude c with
  | Some lat, Some lon =>
      if negb (JS.truthy lat) || negb (JS.truthy lon) then ret st
      else if statusIsDelivered c then ret st
      else
        let distance :=
          calculateDistance (Coords.latitude currentLocation)
            (Coords.longitude currentLocation) lat lon in
        if ltMinimum distance (snd st)
        then let! nearest := alloc (ONearest (mkWithDistance c distance)) in
             ret (Some nearest, distance)
        else ret st
  | _, _ => ret st
  end.

Definition getNearestCustomerInfo `{Math} (customers : loc)
    (currentLocation : option Coords.t) : M (option loc) :=
  match currentLocation with
  | None => ret None
  | Some here =>
      let! elems := readArray customers in
      let! st := foldM (scanCustomer here) elems (None, JS.Infinity) in
      ret (fst st)
  end.

(** The array at [a] holds references to the customer records [cs], in
    order. *)
Definition holdsCustomers (h : gmap loc Obj) (a : loc)
    (cs : list Customer) : Prop :=
  exists elems,
    h !! a = Some (OArray elems) /\
    Forall2 (fun l c => h !! l = Some (OCustomer c)) elems cs.

(** The reference [r] returned on heap [h'] by a call started on heap [h]
    stands for [n]: both are [null], or [r] is an object that did not exist
    in [h] and holds [n]. *)
Definition holdsResult (h h' : gmap loc Obj) (r : option loc)
    (n : option (WithDistance JS.integral)) : Prop :=
  match r, n with
  | None, None => True
  | Some l, Some v => h' !! l = Some (ONearest v) /\ h !! l = None
  | _, _ => False
  end.

(** Everything in [h] is in [h'] unchanged. *)
Definition preserved (h h' : gmap loc Obj) : Prop :=
  forall l o, h !! l = Some o -> h' !! l = Some o.

End Heap.

(** ** A reference instance of [Math] and sample data

    An instance to evaluate the definitions on: [sin], [cos] and [atan] by
    their Taylor polynomials around 0 (accurate for the arcs of a delivery
    round and for latitudes and longitudes within a few degrees of the
    origin) and the IEEE square root. *)

Module Sample.

Definition sin (x : JS.number) : JS.number :=
  let x2 := (x * x)%float in
  (x * (1 - x2 / 6 * (1 - x2 / 20 * (1 - x2 / 42 * (1 - x2 / 72)))))%float.

Definition cos (x : JS.number) : JS.number :=
  let x2 := (x * x)%float in
  (1 - x2 / 2 * (1 - x2 / 12 * (1 - x2 / 30 * (1 - x2 / 56))))%float.

(** For the arguments [calculateDistance] passes on short arcs:
    [0 <= y] and [y] much smaller than [x]. *)
Definition atan2 (y x : JS.number) : JS.number :=
  let t := (y / x)%float in
  let t2 := (t * t)%float in
  (t * (1 - t2 / 3 + t2 * t2 / 5 - t2 * t2 * t2 / 7))%float.

Definition math : Math := {|
  Math_sin := sin;
  Math_cos := cos;
  Math_sqrt := PrimFloat.sqrt;
  Math_atan2 := atan2
|}.

Definition person (id nm : string) (lat lon : option JS.number)
    (details : option string) (st : string) : Customer :=
  {| _id := id; name := nm; address := "12 Main Street";
     latitude := lat; longitude := lon;
     orderDetails := details; deliveryPerson := None;
     status := st;
     deliveryDate := "2025-01-01"; createdAt := "2025-01-01";
     updatedAt := "2025-01-01" |}.

(** The spec's example: device at (0,0); A at (0,0), B at (0,1), both pending;
    C at (0,0.5), delivered. *)
Definition origin : Coords.t := Coords.mk 0 0.
Definition A : Customer := person "a" "A" (Some 0%float) (Some 0%float) None "pending".
Definition B : Customer := person "b" "B" (Some 0%float) (Some 1%float) None "pending".
Definition C : Customer :=
  person "c" "C" (Some 0%float) (Some 0.5%float) None "delivered".

(** Customers around a device at (1,1): [north] and [south] are the same
    distance away, [far] is further, [done] is delivered and [nowhere] has no
    coordinates. *)
Definition here : Coords.t := Coords.mk 1 1.
Definition north : Customer :=
  person "n" "North" (Some 1.00048828125%float) (Some 1%float) (Some "Pizza") "pending".
Definition south : Customer :=
  person "s" "South" (Some 0.99951171875%float) (Some 1%float) None "Pending".
Definition far : Customer :=
  person "f" "Far" (Some 1.001953125%float) (Some 1.0009765625%float) (Some "pasta") "cancelled".
Definition done : Customer :=
  person "d" "Done" (Some 1.0001220703125%float) (Some 1%float) None "Delivered".
Definition nowhere : Customer :=
  person "w" "Nowhere" None None None "pending".

(** Two customers one degree of latitude from the device, one on each side:
    [below] lies on the equator. *)
Definition below : Customer :=
  person "x" "X" (Some 0%float) (Some 1%float) None "pending".
Definition above : Customer :=
  person "y" "Y" (Some 2%float) (Some 1%float) None "pending".

(** A heap with two customer records and the array of them. *)
Definition heap : gmap Heap.loc Heap.Obj :=
  <[3%positive := Heap.OArray [1%positive; 2%positive]]>
    (<[2%positive := Heap.OCustomer done]>
       (<[1%positive := Heap.OCustomer north]> ∅)).

End Sample.

(** ** [Math] at two points on opposite sides of the globe

    A device at (8, -90) and a customer at (-8, 90).  For the arguments
    that [calculateDistance] passes to [Math.sin] and [Math.cos] on this
    pair, in either direction, the instance returns the binary64 number
    nearest to the exact sine and cosine, which is what the engines return
    there: [Math.sin(Math.PI / 2)] is [1], [Math.sin(0.13962634015954636)]
    is [0.13917310096006544], both with the sign of the argument, and
    [Math.cos(0.13962634015954636)] is [0.9902680687415704], also for the
    negated argument.  Elsewhere it is the reference instance. *)

Module Antipodal.

Definition sin (x : JS.number) : JS.number :=
  let signed (y : JS.number) := if PrimFloat.ltb x 0 then (- y)%float else y in
  if PrimFloat.eqb (PrimFloat.abs x) 0x1.921fb54442d18p+0
  then signed 1%float
  else if PrimFloat.eqb (PrimFloat.abs x) 0x1.1df46a2529d39p-3
       then signed 0x1.1d06c968d9e19p-3%float
       else Sample.sin x.

Definition cos (x : JS.number) : JS.number :=
  if PrimFloat.eqb (PrimFloat.abs x) 0x1.1df46a2529d39p-3
  then 0x1.fb046a930947ap-1%float
  else Sample.cos x.

Definition math : Math := {|
  Math_sin := sin;
  Math_cos := cos;
  Math_sqrt := PrimFloat.sqrt;
  Math_atan2 := Sample.atan2
|}.

Definition device : Coords.t := Coords.mk 8 (-90).
Definition opposite : Customer :=
  Sample.person "o" "Opposite" (Some (-8)%float) (Some 90%float) None
    "pending".
Definition nearBy : Customer :=
  Sample.person "y" "NearBy" (Some 8.00048828125%float) (Some (-90)%float)
    None "pending".

End Antipodal.

(** ** [src/app/(tabs)/index.tsx]: what the screen shows and does

    The parts of [HomeScreen] around the ranking: the conditions of the
    render, the tap handler [openDirectionsInApp], the [useEffect] that reads
    the flash message, and [loadCustomers].  Built-in conversions of the
    engine are taken as an interface. *)

(** [Number::toString] (in template literals), [encodeURIComponent] and
    [parseFloat]. *)
Class Builtins : Type := {
  Number_toString : JS.number -> string;
  encodeURIComponent : string -> string;
  parseFloat : string -> JS.number
}.

Module Home.

(** [customer.latitude && customer.longitude], the [hasCoordinates] of a
    row. *)
Definition hasCoordinates (c : Customer) : bool :=
  JS.truthy_opt (latitude c) && JS.truthy_opt (longitude c).

(** The callback of [customers.some] that guards the nearest-customer card:
    [c.latitude && c.longitude &&
     (!c.status || c.status.toLowerCase() !== "delivered")]. *)
Definition cardCandidate (c : Customer) : bool :=
  JS.truthy_opt (latitude c) && JS.truthy_opt (longitude c) &&
  (negb (JS.truthy_string (status c)) ||
   negb (String.eqb (JS.toLowerCase (status c)) "delivered")).

(** ToBoolean on [string | null]. *)
Definition truthyMessage (m : option string) : bool :=
  match m with
  | None => false
  | Some s => JS.truthy_string s
  end.

(** What the place of the nearest-customer card holds. *)
Inductive NearestCard : Type :=
| NoCard
| Calculating
| Card (nearestCustomer : WithDistance JS.integral).

(** [!loading && !error && customers.some(...) && (nearestCustomer ? card :
    "Calculating distance...")]. *)
Definition nearestCard `{Math} (loading : bool) (error : option string)
    (customers : list Customer) (currentLocation : option Coords.t)
    : NearestCard :=
  if negb loading && negb (truthyMessage error) &&
     existsb cardCandidate customers
  then
    match getNearestCustomerInfo customers currentLocation with
    | Some nearestCustomer => Card nearestCustomer
    | None => Calculating
    end
  else NoCard.

(** [nearestCustomer.distance <= 100]: the "You're nearby!" line. *)
Definition nearby (nearestCustomer : WithDistance JS.integral) : bool :=
  JS.le (distance nearestCustomer) (JS.Int 100).

(** [distance != null && distance <= 100]: the "Within range!" line of a
    row. *)
Definition withinRange (e : WithDistance (option JS.integral)) : bool :=
  match distance e with
  | Some d => JS.le d (JS.Int 100)
  | None => false
  end.

(** [distance != null]: the row shows its distance. *)
Definition showsDistance (e : WithDistance (option JS.integral)) : bool :=
  match distance e with
  | Some _ => true
  | None => false
  end.

(** [!hasCoordinates]: the row shows "No GPS" and is drawn disabled. *)
Definition showsNoGPS (e : WithDistance (option JS.integral)) : bool :=
  negb (hasCoordinates (customer e)).

(** The colour of the status label: green for delivered, red for cancelled,
    orange otherwise. *)
Definition statusColor (st : string) : string :=
  if String.eqb (JS.toLowerCase (JS.orEmpty st)) "delivered" then "#4CAF50"
  else if String.eqb (JS.toLowerCase (JS.orEmpty st)) "cancelled"
       then "#f44336"
       else "#FF9800".

(** [(nearestCustomer.status || "").toLowerCase() !== "delivered"]: the
    card offers "Mark Delivered". *)
Definition offersMarkDelivered (st : string) : bool :=
  negb (String.eqb (JS.toLowerCase (JS.orEmpty st)) "delivered").

(** What [openDirectionsInApp] does: an alert, or the maps sheet opened for
    a customer with a URL ([setSelectedCustomer], [setMapsUrl],
    [setMapsVisible(true)]). *)
Inductive Directions : Type :=
| AlertShown (title message : string)
| MapsShown (selectedCustomer : Customer) (mapsUrl : string).

Definition openDirectionsInApp `{Builtins}
    (currentLocation : option Coords.t) (c : Customer) : Directions :=
  match currentLocation with
  | None =>
      AlertShown "Location required"
        "Current location is required to open directions. Please enable location and try again."
  | Some here =>
      match latitude c, longitude c with
      | Some lat, Some lon =>
          if negb (JS.truthy lat) || negb (JS.truthy lon)
          then AlertShown "Invalid Location"
                 "This customer doesn't have valid location coordinates."
          else
            let origin :=
              (Number_toString (Coords.latitude here) ++ "," ++
               Number_toString (Coords.longitude here))%string in
            let destination :=
              (Number_toString lat ++ "," ++ Number_toString lon)%string in
            let googleMapsUrl :=
              ("https://www.google.com/maps/dir/?api=1&origin=" ++
               encodeURIComponent origin ++ "&destination=" ++
               encodeURIComponent destination ++
               "&travelmode=driving&dir_action=navigate")%string in
            MapsShown c googleMapsUrl
      | _, _ =>
          AlertShown "Invalid Location"
            "This customer doesn't have valid location coordinates."
      end
  end.

(** The state of the screen that the handlers below write. *)
Record State : Type := mkState {
  customers : list Customer;
  loading : bool;
  refreshing : bool;
  error : option string;
  successVisible : bool;
  successText : string
}.

(** The initial values of the [useState] calls. *)
Definition initial : State :=
  {| customers := []; loading := true; refreshing := false; error := None;
     successVisible := false; successText := "" |}.

(** The first half of the mount effect:
    [const msg = consumeFlash(); if (msg) { setSuccessText(msg);
     setSuccessVisible(true); }]. *)
Definition readFlash (s : State) (slot : Flash.slot) : State * Flash.slot :=
  let '(msg, slot') := Flash.consumeFlash slot in
  match msg with
  | Some text =>
      if JS.truthy_string text
      then ({| customers := customers s; loading := loading s;
               refreshing := refreshing s; error := error s;
               successVisible := true; successText := text |}, slot')
      else (s, slot')
  | None => (s, slot')
  end.

(** [handleSuccessOk]: [setSuccessVisible(false)]. *)
Definition handleSuccessOk (s : State) : State :=
  {| customers := customers s; loading := loading s;
     refreshing := refreshing s; error := error s;
     successVisible := false; successText := successText s |}.

(** How [await getCustomers()] ends: with the parsed body, of which the code
    reads [success] and [customers] ([None]: not an array), or with a thrown
    error, of which it reads [message] (empty when falsy or missing). *)
Inductive Fetched : Type :=
| Resolved (success : bool) (body : option (list Customer))
| Rejected (message : string).

(** [loadCustomers] from its call to its [await]: [setError(null)]
    ([console.log] writes no state). *)
Definition beginLoad (s : State) : State :=
  {| customers := customers s; loading := loading s;
     refreshing := refreshing s; error := None;
     successVisible := successVisible s; successText := successText s |}.

(** [loadCustomers] from the end of [await getCustomers()] to the end of its
    [finally] block, on the state as it is then.  A response the code accepts
    is stored with [setCustomers], and [error] is left as it is; every other
    end stores a message with [setError]. *)
Definition endLoad (r : Fetched) (s : State) : State :=
  let failed (message : string) :=
    {| customers := customers s; loading := false; refreshing := false;
       error := Some (if JS.truthy_string message then message
                      else "Failed to load customers");
       successVisible := successVisible s; successText := successText s |} in
  match r with
  | Resolved true (Some received) =>
      {| customers := received; loading := false; refreshing := false;
         error := error s;
         successVisible := successVisible s; successText := successText s |}
  | Resolved _ _ => failed "Invalid response format from server"
  | Rejected message => failed message
  end.

(** A call of [loadCustomers] during which no other handler writes the
    state. *)
Definition loadCustomers (r : Fetched) (s : State) : State :=
  endLoad r (beginLoad s).

(** [onRefresh], up to the [await] of the load it starts:
    [setRefreshing(true); loadCustomers()]. *)
Definition onRefresh (s : State) : State :=
  beginLoad
    {| customers := customers s; loading := loading s;
       refreshing := true; error := error s;
       successVisible := successVisible s; successText := successText s |}.

(** What happens to the state while loads are under way: a load begins (on
    mount or from "Retry"), a pull to refresh begins one, or a load that has
    begun comes back from its [await].  Loads may overlap: several can begin
    before the first one ends. *)
Inductive LoadStep : Type :=
| Begin
| Refresh
| End (r : Fetched).

Definition loadStep (e : LoadStep) (s : State) : State :=
  match e with
  | Begin => beginLoad s
  | Refresh => onRefresh s
  | End r => endLoad r s
  end.

Definition runLoads (steps : list LoadStep) (s : State) : State :=
  fold_left (fun st e => loadStep e st) steps s.

(** [!loading && !error]: the "All Customers" card is rendered. *)
Definition showsList (s : State) : bool :=
  negb (loading s) && negb (truthyMessage (error s)).

(** [error && !loading]: the error card with "Retry" is rendered. *)
Definition showsError (s : State) : bool :=
  truthyMessage (error s) && negb (loading s).

(** [getCustomers] ended with a body the code accepts. *)
Definition usable (r : Fetched) : bool :=
  match r with
  | Resolved true (Some _) => true
  | _ => false
  end.

End Home.

(** ** [src/app/(tabs)/add-customer.tsx]: [handleSubmit] up to the request *)

Module AddCustomer.

Module Form.
(** [type CustomerForm]: the text of the six inputs. *)
Record t : Type := mk {
  name : string;
  address : string;
  latitude : string;
  longitude : string;
  orderDetails : string;
  deliveryPerson : string
}.
End Form.

Module Payload.
(** [type CustomerPayload]; an optional field left unset is [None]. *)
Record t : Type := mk {
  name : string;
  address : string;
  latitude : option JS.number;
  longitude : option JS.number;
  orderDetails : option string;
  deliveryPerson : option string
}.
End Payload.

(** [s || undefined]. *)
Definition orUndefined (s : string) : option string :=
  if JS.truthy_string s then Some s else None.

(** [isNaN(x)] on a number. *)
Definition isNaN (x : JS.number) : bool := negb (PrimFloat.eqb x x).

(** What [handleSubmit] does with the form: a "Validation Error" alert with
    a message, or the call [createCustomer(payload)]. *)
Inductive Submission : Type :=
| ValidationError (message : string)
| Create (payload : Payload.t).

Definition handleSubmit `{Builtins} (formData : Form.t) : Submission :=
  if negb (JS.truthy_string (JS.trim (Form.name formData)))
  then ValidationError "Please provide customer name"
  else if negb (JS.truthy_string (JS.trim (Form.address formData)))
  then ValidationError "Please provide address"
  else
    let checkedLatitude : option (option JS.number) :=
      if JS.truthy_string (JS.trim (Form.latitude formData))
      then
        let lat := parseFloat (Form.latitude formData) in
        if isNaN lat || PrimFloat.ltb lat (-90)%float ||
           PrimFloat.ltb 90%float lat
        then None
        else Some (Some lat)
      else Some None in
    match checkedLatitude with
    | None =>
        ValidationError "Latitude must be a valid number between -90 and 90"
    | Some payloadLatitude =>
        let checkedLongitude : option (option JS.number) :=
          if JS.truthy_string (JS.trim (Form.longitude formData))
          then
            let lng := parseFloat (Form.longitude formData) in
            if isNaN lng || PrimFloat.ltb lng (-180)%float ||
               PrimFloat.ltb 180%float lng
            then None
            else Some (Some lng)
          else Some None in
        match checkedLongitude with
        | None =>
            ValidationError
              "Longitude must be a valid number between -180 and 180"
        | Some payloadLongitude =>
            Create
              {| Payload.name := JS.trim (Form.name formData);
                 Payload.address := JS.trim (Form.address formData);
                 Payload.latitude := payloadLatitude;
                 Payload.longitude := payloadLongitude;
                 Payload.orderDetails :=
                   orUndefined (JS.trim (Form.orderDetails formData));
                 Payload.deliveryPerson :=
                   orUndefined (JS.trim (Form.deliveryPerson formData)) |}
        end
    end.

(** After [createCustomer] resolves: [setFlash("Customer added
    successfully")] (then the router goes to the home screen). *)
Definition created (slot : Flash.slot) : Flash.slot :=
  snd (Flash.setFlash "Customer added successfully" slot).

(** The text of a coordinate input passes [handleSubmit]: it is blank, or
    its number lies between the bounds. *)
Definition coordinateAccepted `{Builtins} (text : string) (bound : JS.number)
    : Prop :=
  JS.trim text = "" \/
  (PrimFloat.leb (- bound) (parseFloat text) = true /\
   PrimFloat.leb (parseFloat text) bound = true).

(** The value [handleSubmit] puts in the payload for such a text. *)
Definition coordinateValue `{Builtins} (text : string)
    : option JS.number :=
  if JS.truthy_string (JS.trim text) then Some (parseFloat text) else None.

(** A customer record carries the fields of the payload it was created
    from. *)
Definition carries (c : Customer) (p : Payload.t) : Prop :=
  name c = Payload.name p /\ address c = Payload.address p /\
  latitude c = Payload.latitude p /\ longitude c = Payload.longitude p /\
  orderDetails c = Payload.orderDetails p /\
  deliveryPerson c = Payload.deliveryPerson p.

End AddCustomer.

(** ** A reference instance of [Builtins] and sample forms *)

Module SampleScreen.

(** [Number::toString] on the numbers of the sample data. *)
Definition toString (x : JS.number) : string :=
  if PrimFloat.eqb x 1 then "1"
  else if PrimFloat.eqb x 1.00048828125 then "1.00048828125"
  else if PrimFloat.eqb x 0.99951171875 then "0.99951171875"
  else if PrimFloat.eqb x 0 then "0"
  else "NaN".

(** [parseFloat] on the texts of the sample forms. *)
Definition parse (s : string) : JS.number :=
  if String.eqb s "0" then 0%float
  else if String.eqb s "6.5" then 6.5%float
  else if String.eqb s " 79.25" then 79.25%float
  else if String.eqb s "91" then 91%float
  else nan.

Definition hexDigit (n : N) : ascii :=
  ascii_of_N (if (n <? 10)%N then 48 + n else 55 + n).

Definition percent (n : N) : string :=
  String "%" (String (hexDigit (n / 16)) (String (hexDigit (n mod 16)) "")).

(** [encodeURIComponent] on code units below 256: letters, digits and
    [-_.!~*'()] stay, every other unit becomes the escapes of its UTF-8
    bytes. *)
Definition encodeUnit (c : ascii) : string :=
  let n := N_of_ascii c in
  if ((48 <=? n) && (n <=? 57) || (65 <=? n) && (n <=? 90) ||
      (97 <=? n) && (n <=? 122) ||
      (n =? 45) || (n =? 95) || (n =? 46) || (n =? 33) || (n =? 126) ||
      (n =? 42) || (n =? 39) || (n =? 40) || (n =? 41))%N
  then String c ""
  else if (n <? 128)%N then percent n
  else (percent (192 + n / 64) ++ percent (128 + n mod 64))%string.

Fixpoint encode (s : string) : string :=
  match s with
  | EmptyString => EmptyString
  | String c s' => (encodeUnit c ++ encode s')%string
  end.

Definition builtins : Builtins := {|
  Number_toString := toString;
  encodeURIComponent := encode;
  parseFloat := parse
|}.

(** A form with a latitude and no longitude. *)
Definition latitudeOnly : AddCustomer.Form.t :=
  AddCustomer.Form.mk " Ada " "1 Main Street" "6.5" "  " "" "".

(** A form for a customer on the equator. *)
Definition onEquator : AddCustomer.Form.t :=
  AddCustomer.Form.mk "Bo" "2 Main Street" "0" " 79.25" "tea" "".

(** A form with a latitude out of range. *)
Definition tooFarNorth : AddCustomer.Form.t :=
  AddCustomer.Form.mk "Cy" "3 Main Street" "91" "" "" "".

End SampleScreen.

(** * Properties *)

(** ** The definitions on the sample data *)

Example ranked_sample :
  List.map (fun e => (_id (customer e), distance e))
    (@sortedCustomers Sample.math
       [Sample.nowhere; Sample.south; Sample.far; Sample.north; Sample.done]
       (Some Sample.here) "") =
  [("s", Some (JS.Int 54)); ("n", Some (JS.Int 54)); ("f", Some (JS.Int 243));
   ("w", None)].
Proof. vm_compute. reflexivity. Qed.

Example ranked_query_pizza :
  List.map (fun e => (_id (customer e), distance e))
    (@sortedCustomers Sample.math
       [Sample.nowhere; Sample.south; Sample.far; Sample.north; Sample.done]
       (Some Sample.here) "  piZZa ") =
  [("n", Some (JS.Int 54))].
Proof. vm_compute. reflexivity. Qed.

Example ranked_without_device :
  List.map (fun e => (_id (customer e), distance e))
    (@sortedCustomers Sample.math
       [Sample.nowhere; Sample.south; Sample.far; Sample.north; Sample.done]
       None "") =
  [("w", None); ("s", None); ("f", None); ("n", None)].
Proof. vm_compute. reflexivity. Qed.

Example nearest_sample :
  @getNearestCustomerInfo Sample.math
    [Sample.nowhere; Sample.south; Sample.far; Sample.north; Sample.done]
    (Some Sample.here) =
  Some (mkWithDistance Sample.south (JS.Int 54)).
Proof. vm_compute. reflexivity. Qed.

Example round_half_up :
  (Math_round 2.5, Math_round (-2.5), Math_round 0x1.fffffffffffffp-2,
   Math_round (-0.25), Math_round nan, Math_round infinity)
  = (JS.Int 3, JS.Int (-2), JS.Int 0, JS.Int 0, JS.NaN, JS.Infinity).
Proof. vm_compute. reflexivity. Qed.

Example distance_A_B :
  @calculateDistance Sample.math 0 0 0 1 = JS.Int 111195.
Proof. vm_compute. reflexivity. Qed.

(** At the opposite point the haversine term [a] comes out above 1, its
    complement is negative, and the distance is [NaN]. *)
Example distance_opposite :
  @calculateDistance Antipodal.math 8 (-90) (-8) 90 = JS.NaN /\
  @calculateDistance Antipodal.math 8 (-90) 8.00048828125 (-90) = JS.Int 54.
Proof. vm_compute. split; reflexivity. Qed.

(** ** Strings *)

Lemma prefix_app (q s : string) :
  String.prefix q s = true <-> exists post, s = (q ++ post)%string.
Proof.
  revert s. induction q as [|c q IH]; intros s; simpl.
  - split; [intros _; exists s; reflexivity | destruct s; reflexivity].
  - destruct s as [|d s]; simpl.
    + split; [discriminate | intros [post E]; discriminate].
    + destruct (Ascii.ascii_dec c d) as [->|Hne].
      * rewrite IH. split; intros [post E]; exists post; simpl in *; congruence.
      * split; [discriminate | intros [post E]; simpl in E; congruence].
Qed.

Lemma includes_nil (q : string) : JS.includes "" q = String.prefix q "".
Proof. unfold JS.includes. apply orb_false_r. Qed.

Lemma includes_cons (c : ascii) (s q : string) :
  JS.includes (String c s) q =
  String.prefix q (String c s) || JS.includes s q.
Proof. reflexivity. Qed.

Lemma includes_app (s q : string) :
  JS.includes s q = true <-> exists pre post, s = (pre ++ q ++ post)%string.
Proof.
  induction s as [|c s IH].
  - rewrite includes_nil, prefix_app. split.
    + intros [post E]. exists "", post. exact E.
    + intros (pre & post & E). destruct pre; simpl in E; [eauto | discriminate].
  - rewrite includes_cons, orb_true_iff, prefix_app, IH. split.
    + intros [[post E] | (pre & post & E)].
      * exists "", post. exact E.
      * exists (String c pre), post. simpl. congruence.
    + intros (pre & post & E). destruct pre as [|d pre]; simpl in E.
      * left. eauto.
      * right. exists pre, post. congruence.
Qed.

Lemma toLowerCase_app (a b : string) :
  JS.toLowerCase (a ++ b) = (JS.toLowerCase a ++ JS.toLowerCase b)%string.
Proof. induction a as [|c a IH]; simpl; [reflexivity | now rewrite IH]. Qed.

Lemma toLowerCase_split (s a b : string) :
  JS.toLowerCase s = (a ++ b)%string ->
  exists s1 s2, s = (s1 ++ s2)%string /\
                JS.toLowerCase s1 = a /\ JS.toLowerCase s2 = b.
Proof.
  revert s. induction a as [|c a IH]; intros s E; simpl in E.
  - exists "", s. auto.
  - destruct s as [|d s]; simpl in E; [discriminate|].
    injection E as Ec Es. destruct (IH _ Es) as (s1 & s2 & -> & <- & <-).
    exists (String d s1), s2. simpl. rewrite Ec. auto.
Qed.

Lemma toLowerCase_empty (s : string) : JS.toLowerCase s = "" <-> s = "".
Proof. destruct s; simpl; split; intros E; congruence. Qed.

(** What the code computes, [toLowerCase s] includes [toLowerCase q], is
    containment up to letter case. *)
Lemma includes_ignoring_case (s q : string) :
  JS.includes (JS.toLowerCase s) (JS.toLowerCase q) = true <->
  JS.containsIgnoringCase s q.
Proof.
  rewrite includes_app. unfold JS.containsIgnoringCase, JS.equalsIgnoringCase.
  split.
  - intros (pre & post & E).
    apply toLowerCase_split in E as (s1 & s2 & -> & <- & E).
    apply toLowerCase_split in E as (s3 & s4 & -> & E & <-).
    exists s1, s3, s4. auto.
  - intros (pre & mid & post & -> & E).
    exists (JS.toLowerCase pre), (JS.toLowerCase post).
    now rewrite !toLowerCase_app, E.
Qed.

Lemma truthy_string_true (s : string) : JS.truthy_string s = true <-> s <> "".
Proof. destruct s; simpl; split; intros; congruence. Qed.

Lemma orEmpty_id (s : string) : JS.orEmpty s = s.
Proof. destruct s; reflexivity. Qed.

(** Both status tests of the source decide "the status equals [delivered] up
    to letter case". *)
Lemma isDelivered_spec (c : Customer) :
  isDelivered c = true <-> JS.equalsIgnoringCase (status c) "delivered".
Proof.
  unfold isDelivered, JS.equalsIgnoringCase.
  now rewrite orEmpty_id, String.eqb_eq.
Qed.

Lemma statusIsDelivered_isDelivered (c : Customer) :
  statusIsDelivered c = isDelivered c.
Proof.
  unfold statusIsDelivered, isDelivered. rewrite orEmpty_id.
  destruct (status c); reflexivity.
Qed.

(** ** Integral numbers *)

Ltac integral_cases :=
  repeat match goal with
  | x : JS.integral |- _ => destruct x
  end;
  unfold JS.lt, JS.le, JS.sub, JS.same in *; try congruence;
  repeat match goal with
  | H : context [Z.ltb ?x ?y] |- _ => destruct (Z.ltb_spec x y)
  | |- context [Z.ltb ?x ?y] => destruct (Z.ltb_spec x y)
  | H : context [Z.leb ?x ?y] |- _ => destruct (Z.leb_spec x y)
  | |- context [Z.leb ?x ?y] => destruct (Z.leb_spec x y)
  | H : context [Z.eqb ?x ?y] |- _ => destruct (Z.eqb_spec x y)
  | |- context [Z.eqb ?x ?y] => destruct (Z.eqb_spec x y)
  end;
  try congruence; try lia.

(** The sign test of the sort on a difference is a comparison. *)
Lemma lt_zero_sub (a b : JS.integral) :
  JS.lt (JS.Int 0) (JS.sub a b) = JS.lt b a.
Proof. integral_cases. Qed.

Lemma same_true (a b : JS.integral) : JS.same a b = true <-> a = b.
Proof. split; intros E; integral_cases. Qed.

Lemma lt_not_NaN (a b : JS.integral) :
  JS.lt a b = true -> a <> JS.NaN /\ b <> JS.NaN.
Proof. intros E. split; intros ->; integral_cases. Qed.

Lemma le_not_NaN (a b : JS.integral) :
  JS.le a b = true -> a <> JS.NaN /\ b <> JS.NaN.
Proof. intros E. split; intros ->; integral_cases. Qed.

Lemma lt_asym (a b : JS.integral) : JS.lt a b = true -> JS.lt b a = false.
Proof. intros E. integral_cases. Qed.

Lemma lt_le (a b : JS.integral) : JS.lt a b = true -> JS.le a b = true.
Proof. intros E. integral_cases. Qed.

Lemma lt_false_le (a b : JS.integral) :
  a <> JS.NaN -> b <> JS.NaN -> JS.lt a b = false -> JS.le b a = true.
Proof. intros Ha Hb E. integral_cases. Qed.

Lemma le_false_lt (a b : JS.integral) :
  a <> JS.NaN -> b <> JS.NaN -> JS.le a b = false -> JS.lt b a = true.
Proof. intros Ha Hb E. integral_cases. Qed.

Lemma le_lt_false (a b : JS.integral) :
  JS.le a b = true -> JS.lt b a = false.
Proof. intros E. integral_cases. Qed.

Lemma le_refl (a : JS.integral) : a <> JS.NaN -> JS.le a a = true.
Proof. intros Ha. integral_cases. Qed.

Lemma le_trans (a b c : JS.integral) :
  JS.le a b = true -> JS.le b c = true -> JS.le a c = true.
Proof. intros E1 E2. integral_cases. Qed.

Lemma lt_le_trans (a b c : JS.integral) :
  JS.lt a b = true -> JS.le b c = true -> JS.lt a c = true.
Proof. intros E1 E2. integral_cases. Qed.

Lemma le_lt_trans (a b c : JS.integral) :
  JS.le a b = true -> JS.lt b c = true -> JS.lt a c = true.
Proof. intros E1 E2. integral_cases. Qed.

Lemma le_antisym (a b : JS.integral) :
  JS.le a b = true -> JS.le b a = true -> a = b.
Proof. intros E1 E2. integral_cases. f_equal. lia. Qed.

(** ** [Array_sort]: permutation, order and stability *)

Section SortFacts.

Context {A : Type} (comparefn : A -> A -> JS.integral).

Lemma sortInsert_perm (x : A) (l : list A) :
  Permutation (sortInsert comparefn x l) (x :: l).
Proof.
  induction l as [|y l IH]; simpl; [reflexivity|].
  destruct (JS.lt (JS.Int 0) (comparefn x y)); [|reflexivity].
  rewrite IH. apply perm_swap.
Qed.

Lemma Array_sort_perm (l : list A) : Permutation (Array_sort comparefn l) l.
Proof.
  induction l as [|x l IH]; simpl; [reflexivity|].
  rewrite sortInsert_perm. now apply perm_skip.
Qed.

(** Inserting [x] keeps it in front of the elements of its own class [P]. *)
Lemma sortInsert_filter (P : A -> bool) (x : A) (l : list A) :
  (forall y, P x = true -> P y = true -> keepsBefore comparefn x y) ->
  List.filter P (sortInsert comparefn x l) = List.filter P (x :: l).
Proof.
  intros Hclass. induction l as [|y l IH]; [reflexivity|].
  simpl sortInsert.
  destruct (JS.lt (JS.Int 0) (comparefn x y)) eqn:E; [|reflexivity].
  change (List.filter P (y :: sortInsert comparefn x l))
    with (if P y then y :: List.filter P (sortInsert comparefn x l)
          else List.filter P (sortInsert comparefn x l)).
  rewrite IH. simpl.
  destruct (P x) eqn:Px, (P y) eqn:Py; try reflexivity.
  specialize (Hclass y eq_refl Py). unfold keepsBefore in Hclass. congruence.
Qed.

(** Stability: the elements of a class the comparator does not separate keep
    their order. *)
Lemma Array_sort_filter (P : A -> bool) (l : list A) :
  (forall x y, P x = true -> P y = true -> keepsBefore comparefn x y) ->
  List.filter P (Array_sort comparefn l) = List.filter P l.
Proof.
  intros Hclass. induction l as [|x l IH]; [reflexivity|].
  simpl Array_sort. rewrite sortInsert_filter by (intros; now apply Hclass).
  simpl. now rewrite IH.
Qed.

(** Order: on elements [D] among which the comparator is a consistent
    ordering, the result is in comparator order. *)
Variable D : A -> Prop.

Hypothesis comparefn_total :
  forall x y, D x -> D y ->
    JS.lt (JS.Int 0) (comparefn x y) = true -> keepsBefore comparefn y x.
Hypothesis comparefn_trans :
  forall x y z, D x -> D y -> D z ->
    keepsBefore comparefn x y -> keepsBefore comparefn y z ->
    keepsBefore comparefn x z.

Lemma sortInsert_sorted (x : A) (l : list A) :
  D x -> Forall D l ->
  StronglySorted (keepsBefore comparefn) l ->
  StronglySorted (keepsBefore comparefn) (sortInsert comparefn x l).
Proof.
  intros Dx Dl. induction 1 as [|y l Hs IH Hy]; simpl.
  - constructor; constructor.
  - apply Forall_cons in Dl as [Dy Dl].
    destruct (JS.lt (JS.Int 0) (comparefn x y)) eqn:E.
    + constructor; [now apply IH|].
      eapply Permutation_Forall; [symmetry; apply sortInsert_perm|].
      constructor; [now apply comparefn_total | exact Hy].
    + constructor; [now constructor|].
      constructor; [exact E|].
      rewrite List.Forall_forall in Hy, Dl. apply List.Forall_forall.
      intros z Hz. apply (comparefn_trans x y z); auto.
Qed.

Lemma Array_sort_sorted (l : list A) :
  Forall D l -> StronglySorted (keepsBefore comparefn) (Array_sort comparefn l).
Proof.
  induction l as [|x l IH]; simpl; intros Dl; [constructor|].
  apply Forall_cons in Dl as [Dx Dl].
  apply sortInsert_sorted; [exact Dx| |now apply IH].
  eapply Permutation_Forall; [symmetry; apply Array_sort_perm | exact Dl].
Qed.

End SortFacts.

Lemma StronglySorted_filter_weaken {A : Type} (R S : A -> A -> Prop)
    (P : A -> bool) (l : list A) :
  (forall a b, In a l -> In b l -> P a = true -> P b = true ->
               R a b -> S a b) ->
  StronglySorted R l -> StronglySorted S (List.filter P l).
Proof.
  intros HRS Hs. induction Hs as [|x l Hs IH Hx]; simpl; [constructor|].
  assert (IH' : StronglySorted S (List.filter P l)).
  { apply IH. intros a b Ha Hb. apply HRS; now right. }
  destruct (P x) eqn:Px; [|exact IH'].
  constructor; [exact IH'|].
  apply List.Forall_forall. intros y Hy. apply filter_In in Hy as [Hy Py].
  rewrite List.Forall_forall in Hx.
  apply HRS; auto; [now left | now right].
Qed.

(** ** The comparator of [sortedCustomers] *)

(** What the sort reads of the comparator, as a comparison of the two
    [distance] fields. *)
Lemma compareDistance_after (x y : WithDistance (option JS.integral)) :
  JS.lt (JS.Int 0) (compareDistance x y) =
  match distance x, distance y with
  | None, Some _ => true
  | Some dx, Some dy => JS.lt dy dx
  | _, _ => false
  end.
Proof.
  unfold compareDistance.
  destruct (distance x), (distance y); try reflexivity. apply lt_zero_sub.
Qed.

Lemma compareDistance_total (x y : WithDistance (option JS.integral)) :
  JS.lt (JS.Int 0) (compareDistance x y) = true ->
  keepsBefore compareDistance y x.
Proof.
  unfold keepsBefore. rewrite !compareDistance_after.
  destruct (distance x), (distance y); try congruence. apply lt_asym.
Qed.

(** A [NaN] distance is what makes the comparator inconsistent: it is tied
    with every distance, which are not all tied with each other. *)
Lemma compareDistance_trans (x y z : WithDistance (option JS.integral)) :
  distanceNotNaN y ->
  keepsBefore compareDistance x y -> keepsBefore compareDistance y z ->
  keepsBefore compareDistance x z.
Proof.
  unfold keepsBefore, distanceNotNaN. rewrite !compareDistance_after.
  destruct (distance x) as [a|], (distance y) as [b|], (distance z) as [c|];
    try congruence.
  intros Hb E1 E2. assert (b <> JS.NaN) by congruence. integral_cases.
Qed.

Lemma distanceIs_true (k : option JS.integral)
    (e : WithDistance (option JS.integral)) :
  distanceIs k e = true <-> distance e = k.
Proof.
  unfold distanceIs. destruct (distance e) as [a|], k as [b|];
    rewrite ?same_true; split; intros E; congruence.
Qed.

Lemma compareDistance_same (k : option JS.integral)
    (x y : WithDistance (option JS.integral)) :
  distanceIs k x = true ->
  distanceIs k y = true ->
  keepsBefore compareDistance x y.
Proof.
  intros Hx%distanceIs_true Hy%distanceIs_true.
  unfold keepsBefore. rewrite compareDistance_after, Hx, Hy.
  destruct k as [d|]; [|reflexivity]. integral_cases.
Qed.

Lemma filter_all_without_distance
    (l : list (WithDistance (option JS.integral))) :
  Forall (fun e => distance e = None) l ->
  List.filter (fun e => negb (distanceIs None e)) l = [] /\
  List.filter (fun e => distanceIs None e) l = l.
Proof.
  induction 1 as [|y l Hy _ [IH1 IH2]]; [split; reflexivity|].
  simpl. apply distanceIs_true in Hy. rewrite Hy. simpl.
  split; congruence.
Qed.

(** A list in comparator order is its distance-bearing entries followed by
    the others. *)
Lemma sorted_distance_first (l : list (WithDistance (option JS.integral))) :
  StronglySorted (keepsBefore compareDistance) l ->
  l = List.filter (fun e => negb (distanceIs None e)) l ++
      List.filter (fun e => distanceIs None e) l.
Proof.
  induction 1 as [|x l Hs IH Hx]; [reflexivity|].
  simpl. destruct (distanceIs None x) eqn:E; simpl.
  - apply distanceIs_true in E.
    assert (Hall : Forall (fun e => distance e = None) l).
    { eapply List.Forall_impl; [|exact Hx]. intros y Hy. simpl in Hy.
      unfold keepsBefore in Hy. rewrite compareDistance_after, E in Hy.
      destruct (distance y); [discriminate | reflexivity]. }
    apply filter_all_without_distance in Hall as [-> ->]. reflexivity.
  - now rewrite IH at 1.
Qed.

Lemma filter_map_comm {A B : Type} (f : A -> B) (P : B -> bool) (l : list A) :
  List.filter P (List.map f l) = List.map f (List.filter (fun x => P (f x)) l).
Proof.
  induction l as [|x l IH]; simpl; [reflexivity|].
  destruct (P (f x)); simpl; now rewrite IH.
Qed.

Lemma filter_filter_and {A : Type} (P Q : A -> bool) (l : list A) :
  List.filter P (List.filter Q l) = List.filter (fun x => Q x && P x) l.
Proof.
  induction l as [|x l IH]; simpl; [reflexivity|].
  destruct (Q x); simpl; [destruct (P x)|]; now rewrite IH.
Qed.

Lemma sortedCustomers_perm `{Math} (customers : list Customer)
    (currentLocation : option Coords.t) (searchQuery : string) :
  Permutation (sortedCustomers customers currentLocation searchQuery)
    (customersWithDistance customers currentLocation searchQuery).
Proof. apply Array_sort_perm. Qed.

(** The entries of one distance class, in the output, are those of the input
    in input order. *)
Lemma sortedCustomers_class `{Math} (customers : list Customer)
    (currentLocation : option Coords.t) (searchQuery : string)
    (k : option JS.integral) :
  List.filter (fun e => distanceIs k e)
    (sortedCustomers customers currentLocation searchQuery) =
  List.map (attachDistance currentLocation)
    (List.filter
       (fun c => keepCustomer searchQuery c &&
                 distanceIs k (attachDistance currentLocation c))
       customers).
Proof.
  unfold sortedCustomers.
  rewrite Array_sort_filter by (intros x y; apply compareDistance_same).
  unfold customersWithDistance, filteredCustomers.
  now rewrite filter_map_comm, filter_filter_and.
Qed.

(** When no entry has a [NaN] distance the output is in comparator order. *)
Lemma sortedCustomers_in_order `{Math} (customers : list Customer)
    (currentLocation : option Coords.t) (searchQuery : string) :
  Forall distanceNotNaN
    (customersWithDistance customers currentLocation searchQuery) ->
  StronglySorted (keepsBefore compareDistance)
    (sortedCustomers customers currentLocation searchQuery).
Proof.
  intros Hnum. unfold sortedCustomers.
  apply (Array_sort_sorted compareDistance distanceNotNaN); [| |exact Hnum].
  - intros x y _ _. apply compareDistance_total.
  - intros x y z _ Hy _. now apply compareDistance_trans.
Qed.

Lemma sortedCustomers_not_NaN `{Math} (customers : list Customer)
    (currentLocation : option Coords.t) (searchQuery : string) :
  Forall distanceNotNaN
    (customersWithDistance customers currentLocation searchQuery) ->
  Forall distanceNotNaN
    (sortedCustomers customers currentLocation searchQuery).
Proof.
  intros Hnum.
  eapply Permutation_Forall; [symmetry; apply sortedCustomers_perm|].
  exact Hnum.
Qed.

(** Two entries in comparator order that carry distances other than [NaN]
    are in non-decreasing distance. *)
Lemma keepsBefore_distanceLe (a b : WithDistance (option JS.integral)) :
  distanceNotNaN a -> distanceNotNaN b ->
  distanceIs None a = false -> distanceIs None b = false ->
  keepsBefore compareDistance a b -> distanceLe a b.
Proof.
  unfold distanceNotNaN, distanceIs, distanceLe, keepsBefore.
  rewrite compareDistance_after.
  destruct (distance a) as [da|], (distance b) as [db|]; try discriminate.
  intros Ha Hb _ _ E. apply lt_false_le; congruence.
Qed.

(** The ranking of [sortedCustomers] when no kept customer gets a [NaN]
    distance. *)
Lemma sortedCustomers_ranked_numbers `{Math} (customers : list Customer)
    (currentLocation : option Coords.t) (searchQuery : string) :
  Forall distanceNotNaN
    (customersWithDistance customers currentLocation searchQuery) ->
  exists near rest : list (WithDistance (option JS.integral)),
    sortedCustomers customers currentLocation searchQuery = near ++ rest /\
    Forall (fun e => exists d, distance e = Some d) near /\
    Forall (fun e => distance e = None) rest /\
    StronglySorted distanceLe near /\
    (forall d : JS.integral,
       List.filter (fun e => distanceIs (Some d) e) near =
       List.map (attachDistance currentLocation)
         (List.filter
            (fun c => keepCustomer searchQuery c &&
               distanceIs (Some d) (attachDistance currentLocation c))
            customers)) /\
    rest =
      List.map (attachDistance currentLocation)
        (List.filter
           (fun c => keepCustomer searchQuery c &&
              distanceIs None (attachDistance currentLocation c))
           customers).
Proof.
  intros Hnum.
  set (out := sortedCustomers customers currentLocation searchQuery).
  assert (Hs : StronglySorted (keepsBefore compareDistance) out)
    by now apply sortedCustomers_in_order.
  assert (Hout : Forall distanceNotNaN out)
    by now apply sortedCustomers_not_NaN.
  exists (List.filter (fun e => negb (distanceIs None e)) out),
         (List.filter (fun e => distanceIs None e) out).
  split; [now apply sorted_distance_first|].
  split.
  { apply List.Forall_forall. intros e He. apply filter_In in He as [_ He].
    unfold distanceIs in He.
    destruct (distance e) as [d|]; [eauto | discriminate]. }
  split.
  { apply List.Forall_forall. intros e He. apply filter_In in He as [_ He].
    now apply distanceIs_true in He. }
  split.
  { eapply StronglySorted_filter_weaken; [|exact Hs].
    rewrite List.Forall_forall in Hout.
    intros a b Ha Hb Pa Pb Hab.
    apply negb_true_iff in Pa, Pb.
    apply keepsBefore_distanceLe; auto. }
  split.
  - intros d. rewrite filter_filter_and.
    rewrite <- sortedCustomers_class. fold out.
    apply filter_ext. intros e.
    unfold distanceIs. destruct (distance e); reflexivity.
  - apply sortedCustomers_class.
Qed.

(** X20: when no customer that passes the filter gets a [NaN] distance, the
    output of [sortedCustomers] is a block [near] of entries that carry a
    distance followed by a block [rest] of entries that carry none; [near] is
    in non-decreasing distance; the entries of [near] with one and the same
    distance are the kept customers with that distance in input order, and
    [rest] is the kept customers without a distance in input order. *)
Theorem ranked_when_no_distance_is_NaN `{Math} (customers : list Customer)
    (currentLocation : option Coords.t) (searchQuery : string) :
  Forall distanceNotNaN
    (customersWithDistance customers currentLocation searchQuery) ->
  exists near rest : list (WithDistance (option JS.integral)),
    sortedCustomers customers currentLocation searchQuery = near ++ rest /\
    Forall (fun e => exists d, distance e = Some d) near /\
    Forall (fun e => distance e = None) rest /\
    StronglySorted distanceLe near /\
    (forall d : JS.integral,
       List.filter (fun e => distanceIs (Some d) e) near =
       List.map (attachDistance currentLocation)
         (List.filter
            (fun c => keepCustomer searchQuery c &&
               distanceIs (Some d) (attachDistance currentLocation c))
            customers)) /\
    rest =
      List.map (attachDistance currentLocation)
        (List.filter
           (fun c => keepCustomer searchQuery c &&
              distanceIs None (attachDistance currentLocation c))
           customers).
Proof. apply sortedCustomers_ranked_numbers. Qed.

Lemma ranked_when_no_distance_is_NaN_witness :
  exists near rest : list (WithDistance (option JS.integral)),
    @sortedCustomers Sample.math
      [Sample.nowhere; Sample.south; Sample.far; Sample.north; Sample.done]
      (Some Sample.here) "" = near ++ rest /\
    Forall (fun e => exists d, distance e = Some d) near /\
    Forall (fun e => distance e = None) rest /\
    StronglySorted distanceLe near /\
    (forall d : JS.integral,
       List.filter (fun e => distanceIs (Some d) e) near =
       List.map (@attachDistance Sample.math (Some Sample.here))
         (List.filter
            (fun c => keepCustomer "" c &&
               distanceIs (Some d)
                 (@attachDistance Sample.math (Some Sample.here) c))
            [Sample.nowhere; Sample.south; Sample.far; Sample.north;
             Sample.done])) /\
    rest =
      List.map (@attachDistance Sample.math (Some Sample.here))
        (List.filter
           (fun c => keepCustomer "" c &&
              distanceIs None
                (@attachDistance Sample.math (Some Sample.here) c))
           [Sample.nowhere; Sample.south; Sample.far; Sample.north;
            Sample.done]).
Proof.
  apply (@ranked_when_no_distance_is_NaN Sample.math).
  vm_compute. repeat (constructor; [discriminate|]). constructor.
Defined.

(** C1 (on the code): with the device at (8, -90), a customer at the
    opposite point (-8, 90) and a customer 54 m from the device, in this
    order, [calculateDistance] is [NaN] for the first.  The comparator
    returns [NaN] for the pair, which the sort reads as a tie (the only
    comparison there is to make, so every stable sort agrees), and the list
    comes out in input order: the entry with [NaN] above the entry at 54 m.
    The entries that carry a distance are not in non-decreasing distance. *)
Theorem ranking_with_NaN_distance :
  @sortedCustomers Antipodal.math [Antipodal.opposite; Antipodal.nearBy]
    (Some Antipodal.device) "" =
  [mkWithDistance Antipodal.opposite (Some JS.NaN);
   mkWithDistance Antipodal.nearBy (Some (JS.Int 54))] /\
  compareDistance
    (mkWithDistance Antipodal.opposite (Some JS.NaN))
    (mkWithDistance Antipodal.nearBy (Some (JS.Int 54))) = JS.NaN /\
  ~ StronglySorted distanceLe
      (@sortedCustomers Antipodal.math [Antipodal.opposite; Antipodal.nearBy]
         (Some Antipodal.device) "").
Proof.
  assert (E : @sortedCustomers Antipodal.math
                [Antipodal.opposite; Antipodal.nearBy]
                (Some Antipodal.device) "" =
              [mkWithDistance Antipodal.opposite (Some JS.NaN);
               mkWithDistance Antipodal.nearBy (Some (JS.Int 54))])
    by (vm_compute; reflexivity).
  split; [exact E|]. split; [reflexivity|].
  rewrite E. intros Hs. inversion Hs as [|? ? _ Hx]; subst.
  inversion Hx as [|? ? Hle _]; subst. discriminate Hle.
Qed.

(** ** Filtering *)

Lemma keepCustomer_not_delivered (searchQuery : string) (c : Customer) :
  keepCustomer searchQuery c = true -> isDelivered c = false.
Proof. unfold keepCustomer. destruct (isDelivered c); [discriminate | reflexivity]. Qed.

(** Removing the delivered customers first changes nothing downstream. *)
Lemma filteredCustomers_delivered_first (customers : list Customer)
    (searchQuery : string) :
  filteredCustomers customers searchQuery =
  filteredCustomers (List.filter (fun c => negb (isDelivered c)) customers)
    searchQuery.
Proof.
  unfold filteredCustomers. rewrite filter_filter_and.
  apply filter_ext. intros c. unfold keepCustomer.
  destruct (isDelivered c); reflexivity.
Qed.

(** C2: no entry of the output of filterAndRank ([sortedCustomers]) has a
    status equal to [delivered] up to letter case, and the output is the one
    obtained from the input with the delivered customers removed beforehand:
    the delivered test is the first thing the filter callback does, ahead of
    the query and of any distance. *)
Theorem sortedCustomers_excludes_delivered `{Math}
    (customers : list Customer) (currentLocation : option Coords.t)
    (searchQuery : string) :
  Forall
    (fun e => ~ JS.equalsIgnoringCase (status (customer e)) "delivered")
    (sortedCustomers customers currentLocation searchQuery) /\
  sortedCustomers customers currentLocation searchQuery =
  sortedCustomers (List.filter (fun c => negb (isDelivered c)) customers)
    currentLocation searchQuery.
Proof.
  split.
  - apply List.Forall_forall. intros e He.
    eapply Permutation_in in He; [|apply sortedCustomers_perm].
    unfold customersWithDistance, filteredCustomers in He.
    apply in_map_iff in He as (c & <- & Hc).
    apply filter_In in Hc as [_ Hc].
    apply keepCustomer_not_delivered in Hc.
    rewrite <- isDelivered_spec. simpl. congruence.
  - unfold sortedCustomers, customersWithDistance.
    now rewrite filteredCustomers_delivered_first.
Qed.

Lemma optionalIncludes_spec (field : option string) (q : string) :
  q <> "" ->
  optionalIncludes field (JS.toLowerCase q) = true <->
  exists s, field = Some s /\ JS.containsIgnoringCase s q.
Proof.
  intros Hq. unfold optionalIncludes. destruct field as [s|].
  - rewrite andb_true_iff, includes_ignoring_case, truthy_string_true. split.
    + intros [_ Hs]. eauto.
    + intros (s' & [= <-] & Hs). split; [|exact Hs].
      intros ->. destruct Hs as (pre & mid & post & E & Hm).
      destruct pre; [|discriminate]. destruct mid; [|discriminate].
      unfold JS.equalsIgnoringCase in Hm. simpl in Hm.
      symmetry in Hm. apply (proj1 (toLowerCase_empty q)) in Hm. contradiction.
  - split; [discriminate | intros (s & [=] & _)].
Qed.

(** The filter callback, in the words of the spec. *)
Lemma keepCustomer_spec (searchQuery : string) (c : Customer) :
  keepCustomer searchQuery c = true <->
  ~ JS.equalsIgnoringCase (status c) "delivered" /\
  (JS.trim searchQuery = "" \/
   JS.containsIgnoringCase (name c) (JS.trim searchQuery) \/
   JS.containsIgnoringCase (address c) (JS.trim searchQuery) \/
   (exists s, deliveryPerson c = Some s /\
              JS.containsIgnoringCase s (JS.trim searchQuery)) \/
   (exists s, orderDetails c = Some s /\
              JS.containsIgnoringCase s (JS.trim searchQuery))).
Proof.
  unfold keepCustomer. rewrite <- isDelivered_spec.
  destruct (isDelivered c).
  { split; [discriminate | intros [Hd _]; now destruct Hd]. }
  destruct (JS.truthy_string (JS.toLowerCase (JS.trim searchQuery))) eqn:Hq;
    simpl.
  - apply truthy_string_true in Hq.
    assert (Hne : JS.trim searchQuery <> "").
    { intros E. apply Hq. now rewrite E. }
    clear Hq. rename Hne into Hq.
    rewrite !orb_true_iff, !includes_ignoring_case,
      !(optionalIncludes_spec _ _ Hq).
    split; [intros Hm; split; [discriminate | tauto] | tauto].
  - assert (Hq' : JS.toLowerCase (JS.trim searchQuery) = "").
    { destruct (JS.toLowerCase (JS.trim searchQuery)); [reflexivity | discriminate]. }
    apply (proj1 (toLowerCase_empty _)) in Hq'.
    split; [intros _; split; [discriminate | now left] | reflexivity].
Qed.

(** C6: a customer is an entry of the output of filterAndRank exactly when it
    is in the input, its status is not [delivered] (up to case) and either
    the trimmed query is empty or the trimmed query occurs, up to case, in its
    name, its address, its deliveryPerson if it has one, or its orderDetails
    if it has one.  The output holds the kept customers, each as often as the
    input does. *)
Theorem sortedCustomers_query `{Math} (customers : list Customer)
    (currentLocation : option Coords.t) (searchQuery : string) :
  (forall c : Customer,
     In c (List.map customer
             (sortedCustomers customers currentLocation searchQuery)) <->
     In c customers /\
     ~ JS.equalsIgnoringCase (status c) "delivered" /\
     (JS.trim searchQuery = "" \/
      JS.containsIgnoringCase (name c) (JS.trim searchQuery) \/
      JS.containsIgnoringCase (address c) (JS.trim searchQuery) \/
      (exists s, deliveryPerson c = Some s /\
                 JS.containsIgnoringCase s (JS.trim searchQuery)) \/
      (exists s, orderDetails c = Some s /\
                 JS.containsIgnoringCase s (JS.trim searchQuery)))) /\
  Permutation
    (List.map customer (sortedCustomers customers currentLocation searchQuery))
    (List.filter (keepCustomer searchQuery) customers).
Proof.
  assert (HP : Permutation
    (List.map customer (sortedCustomers customers currentLocation searchQuery))
    (List.filter (keepCustomer searchQuery) customers)).
  { rewrite sortedCustomers_perm. unfold customersWithDistance.
    rewrite List.map_map. simpl. rewrite List.map_id. reflexivity. }
  split; [|exact HP].
  intros c. rewrite <- keepCustomer_spec, <- filter_In.
  split; apply Permutation_in; [exact HP | symmetry; exact HP].
Qed.

(** ** [getNearestCustomerInfo] *)

Lemma scanCustomer_candidate `{Math} (here : Coords.t) (st : ScanState)
    (c : Customer) :
  scanCustomer here st c =
  match candidate here c with
  | None => st
  | Some d =>
      if ltMinimum d (snd st) then (Some (mkWithDistance c d), d) else st
  end.
Proof.
  unfold scanCustomer, candidate.
  destruct (latitude c) as [lat|], (longitude c) as [lon|]; try reflexivity.
  destruct (JS.truthy lat), (JS.truthy lon), (statusIsDelivered c);
    reflexivity.
Qed.

Lemma scan_no_candidate `{Math} (here : Coords.t) (l : list Customer)
    (st : ScanState) :
  Forall (fun c => candidate here c = None) l ->
  fold_left (scanCustomer here) l st = st.
Proof.
  intros Hl. revert st. induction Hl as [|c l Hc _ IH]; intros st; simpl.
  - reflexivity.
  - now rewrite scanCustomer_candidate, Hc, IH.
Qed.

(** A distance that is not below [Infinity] is below no minimum: the scan
    passes over a candidate whose distance is [NaN]. *)
Lemma lt_Infinity_false (d m : JS.integral) :
  JS.lt d JS.Infinity = false -> JS.lt d m = false.
Proof. intros E. integral_cases. Qed.

Lemma lt_Infinity_true (d m : JS.integral) :
  JS.lt d m = true -> JS.lt d JS.Infinity = true.
Proof. intros E. integral_cases. Qed.

Lemma measured_Some `{Math} (here : Coords.t) (c : Customer)
    (d : JS.integral) :
  measured here c = Some d <->
  candidate here c = Some d /\ JS.lt d JS.Infinity = true.
Proof.
  unfold measured. destruct (candidate here c) as [dc|].
  - destruct (JS.lt dc JS.Infinity) eqn:E.
    + split; [intros [= <-]; now split | now intros [E' _]].
    + split; [discriminate | intros [[= <-] E']; congruence].
  - split; [discriminate | now intros [E' _]].
Qed.

Lemma measured_not_NaN `{Math} (here : Coords.t) (c : Customer)
    (d : JS.integral) :
  measured here c = Some d -> d <> JS.NaN.
Proof. intros [_ E]%measured_Some. now apply lt_not_NaN in E. Qed.

Lemma scanCustomer_measured `{Math} (here : Coords.t) (st : ScanState)
    (c : Customer) :
  scanCustomer here st c =
  match measured here c with
  | None => st
  | Some d =>
      if ltMinimum d (snd st) then (Some (mkWithDistance c d), d) else st
  end.
Proof.
  rewrite scanCustomer_candidate. unfold measured, ltMinimum.
  destruct (candidate here c) as [d|]; [|reflexivity].
  destruct (JS.lt d JS.Infinity) eqn:E; [reflexivity|].
  now rewrite (lt_Infinity_false d (snd st) E).
Qed.

Lemma scan_not_measured `{Math} (here : Coords.t) (l : list Customer)
    (st : ScanState) :
  Forall (fun c => measured here c = None) l ->
  fold_left (scanCustomer here) l st = st.
Proof.
  intros Hl. revert st. induction Hl as [|c l Hc _ IH]; intros st; simpl.
  - reflexivity.
  - now rewrite scanCustomer_measured, Hc, IH.
Qed.

(** After a stretch whose measured customers are all further away than [d],
    the running minimum is still above [d]. *)
Lemma scan_above `{Math} (here : Coords.t) (d : JS.integral)
    (l : list Customer) (st : ScanState) :
  ltMinimum d (snd st) = true ->
  (forall x dx, In x l -> measured here x = Some dx -> JS.lt d dx = true) ->
  ltMinimum d (snd (fold_left (scanCustomer here) l st)) = true.
Proof.
  revert st. induction l as [|c l IH]; intros st Hst Hl; simpl; [exact Hst|].
  apply IH; [|intros x dx Hx; apply Hl; now right].
  rewrite scanCustomer_measured.
  destruct (measured here c) as [dc|] eqn:Ec; [|exact Hst].
  destruct (ltMinimum dc (snd st)); [|exact Hst].
  simpl. apply (Hl c dc); [now left | exact Ec].
Qed.

(** Once the minimum is [d], measured customers at [d] or further change
    nothing. *)
Lemma scan_not_below `{Math} (here : Coords.t) (d : JS.integral)
    (l : list Customer) (n : option (WithDistance JS.integral)) :
  (forall x dx, In x l -> measured here x = Some dx -> JS.le d dx = true) ->
  fold_left (scanCustomer here) l (n, d) = (n, d).
Proof.
  induction l as [|c l IH]; intros Hl; simpl; [reflexivity|].
  rewrite scanCustomer_measured.
  destruct (measured here c) as [dc|] eqn:Ec.
  - simpl. assert (Hle : JS.le d dc = true)
      by (apply (Hl c dc); [now left | exact Ec]).
    unfold ltMinimum. rewrite (le_lt_false _ _ Hle).
    apply IH. intros x dx Hx. apply Hl. now right.
  - apply IH. intros x dx Hx. apply Hl. now right.
Qed.

(** [candidate] in the words of the spec: the customer is not delivered, both
    coordinates are present and truthy, and the value is the distance from the
    device. *)
Lemma candidate_spec `{Math} (here : Coords.t) (c : Customer)
    (d : JS.integral) :
  candidate here c = Some d <->
  exists lat lon,
    latitude c = Some lat /\ longitude c = Some lon /\
    JS.truthy lat = true /\ JS.truthy lon = true /\
    ~ JS.equalsIgnoringCase (status c) "delivered" /\
    d = calculateDistance (Coords.latitude here) (Coords.longitude here)
          lat lon.
Proof.
  unfold candidate. setoid_rewrite <- isDelivered_spec.
  rewrite <- statusIsDelivered_isDelivered.
  destruct (latitude c) as [lat|], (longitude c) as [lon|];
    try (split; [discriminate | intros (? & ? & ? & ? & _); discriminate]).
  destruct (JS.truthy lat) eqn:E1, (JS.truthy lon) eqn:E2,
    (statusIsDelivered c) eqn:E3; simpl;
    (split;
     [ intros [= <-]; try discriminate; exists lat, lon;
       repeat split; auto; discriminate
     | intros (lat' & lon' & [= <-] & [= <-] & T1 & T2 & Hd & ->);
       try congruence; try (now destruct Hd) ]).
Qed.

(** The first measured customer at the minimal distance is the one
    returned: the running minimum is replaced only by a strictly smaller
    distance. *)
Lemma nearest_first_minimum `{Math} (before after : list Customer)
    (c : Customer) (here : Coords.t) (d : JS.integral) :
  measured here c = Some d ->
  (forall x dx, In x before -> measured here x = Some dx ->
                JS.lt d dx = true) ->
  (forall x dx, In x after -> measured here x = Some dx ->
                JS.le d dx = true) ->
  getNearestCustomerInfo (before ++ c :: after) (Some here) =
    Some (mkWithDistance c d).
Proof.
  intros Hc Hbefore Hafter.
  unfold getNearestCustomerInfo.
  rewrite fold_left_app. simpl.
  assert (Hd : ltMinimum d JS.Infinity = true)
    by now apply measured_Some in Hc.
  pose proof (scan_above here d before (None, JS.Infinity) Hd Hbefore) as Hm.
  rewrite (scanCustomer_measured here _ c), Hc, Hm.
  now rewrite scan_not_below.
Qed.

(** Every input has such a first measured customer at the minimal distance,
    unless it has no measured customer at all. *)
Lemma first_minimum_exists `{Math} (here : Coords.t)
    (customers : list Customer) :
  Forall (fun c => measured here c = None) customers \/
  exists before c after d,
    customers = before ++ c :: after /\
    measured here c = Some d /\
    (forall x dx, In x before -> measured here x = Some dx ->
                  JS.lt d dx = true) /\
    (forall x dx, In x after -> measured here x = Some dx ->
                  JS.le d dx = true).
Proof.
  induction customers as [|x l IH]; [left; constructor|].
  destruct (measured here x) as [dx|] eqn:Ex.
  - right. pose proof (measured_not_NaN here x dx Ex) as Nx.
    destruct IH as [Hnone | (before & c & after & d & -> & Hc & Hb & Ha)].
    + exists [], x, l, dx. repeat split; auto; try (now intros ? ? []).
      intros y dy Hy Ey. rewrite List.Forall_forall in Hnone.
      rewrite (Hnone y Hy) in Ey. discriminate.
    + pose proof (measured_not_NaN here c d Hc) as Nc.
      destruct (JS.le dx d) eqn:Hle.
      * exists [], x, (before ++ c :: after), dx.
        repeat split; auto; try (now intros ? ? []).
        intros y dy Hy Ey. apply in_app_or in Hy as [Hy|[<-|Hy]].
        -- specialize (Hb y dy Hy Ey).
           apply lt_le. eapply le_lt_trans; eassumption.
        -- assert (dy = d) by congruence. subst dy. exact Hle.
        -- specialize (Ha y dy Hy Ey). eapply le_trans; eassumption.
      * apply le_false_lt in Hle; auto.
        exists (x :: before), c, after, d. repeat split; auto.
        intros y dy [<-|Hy] Ey; [|now apply (Hb y dy)].
        assert (dy = dx) by congruence. subst dy. exact Hle.
  - destruct IH as [Hnone | (before & c & after & d & -> & Hc & Hb & Ha)].
    + left. now constructor.
    + right. exists (x :: before), c, after, d. repeat split; auto.
      intros y dy [<-|Hy] Ey; [congruence | now apply (Hb y dy)].
Qed.

(** X21: the first measured customer at the smallest measured distance is
    the one [getNearestCustomerInfo] returns, however many share that
    distance: when [c] is measured at [d], every measured customer before it
    in the input is strictly further away and every measured customer after
    it is at [d] or further, the result is [c] with distance [d]; and once
    the running minimum is [d], a customer at [d] or further never replaces
    it ([distance < minDistance] is strict). *)
Theorem first_tied_measured_wins `{Math} (before after : list Customer)
    (c : Customer) (here : Coords.t) (d : JS.integral) :
  measured here c = Some d ->
  (forall x dx, In x before -> measured here x = Some dx ->
                JS.lt d dx = true) ->
  (forall x dx, In x after -> measured here x = Some dx ->
                JS.le d dx = true) ->
  getNearestCustomerInfo (before ++ c :: after) (Some here) =
    Some (mkWithDistance c d) /\
  (forall (nearest : option (WithDistance JS.integral)) (x : Customer)
          (dx : JS.integral),
     measured here x = Some dx -> JS.le d dx = true ->
     scanCustomer here (nearest, d) x = (nearest, d)).
Proof.
  intros Hc Hbefore Hafter. split.
  - now apply nearest_first_minimum.
  - intros nearest x dx Hx Hle.
    apply (scan_not_below here d [x] nearest).
    intros y dy [<-|[]] Hy. congruence.
Qed.

Lemma first_tied_measured_wins_witness :
  @getNearestCustomerInfo Sample.math
    ([Sample.far] ++ Sample.north :: [Sample.done; Sample.south])
    (Some Sample.here) =
    Some (mkWithDistance Sample.north (JS.Int 54)) /\
  (forall (nearest : option (WithDistance JS.integral)) (x : Customer)
          (dx : JS.integral),
     @measured Sample.math Sample.here x = Some dx ->
     JS.le (JS.Int 54) dx = true ->
     @scanCustomer Sample.math Sample.here (nearest, JS.Int 54) x =
     (nearest, JS.Int 54)).
Proof.
  apply (@first_tied_measured_wins Sample.math).
  - vm_compute. reflexivity.
  - intros x dx [<-|[]] E. vm_compute in E. injection E as <-. reflexivity.
  - intros x dx [<-|[<-|[]]] E; vm_compute in E; [discriminate|].
    injection E as <-. reflexivity.
Defined.

(** C5 (on the code): with the device at (1,1) and the pending customers X
    at (0,1) and Y at (2,1), in this order, both are 111195 m away by the
    formula.  The callback returns early on X, whose latitude 0 is falsy, so
    X is never compared, and the result is Y: the second of the two tied
    customers. *)
Theorem nearest_passes_over_first_tied :
  @calculateDistance Sample.math 1 1 0 1 = JS.Int 111195 /\
  @calculateDistance Sample.math 1 1 2 1 = JS.Int 111195 /\
  (forall st, @scanCustomer Sample.math Sample.here st Sample.below = st) /\
  @getNearestCustomerInfo Sample.math [Sample.below; Sample.above]
    (Some Sample.here) =
  Some (mkWithDistance Sample.above (JS.Int 111195)).
Proof.
  split; [vm_compute; reflexivity|].
  split; [vm_compute; reflexivity|].
  split; [intros st; reflexivity|].
  vm_compute. reflexivity.
Qed.

(** C4: findNearestEligible ([getNearestCustomerInfo]) returns [null] when
    the device position is absent, and when every customer has a delivered
    status or lacks a coordinate (in particular for the empty input).  The
    function has a result for every input; [null] is one of its values. *)
Theorem nearest_none `{Math} (customers : list Customer)
    (currentLocation : option Coords.t) :
  currentLocation = None \/
  Forall (fun c => JS.equalsIgnoringCase (status c) "delivered" \/
                   latitude c = None \/ longitude c = None) customers ->
  getNearestCustomerInfo customers currentLocation = None.
Proof.
  intros [-> | Hall]; [reflexivity|].
  destruct currentLocation as [here|]; [|reflexivity].
  unfold getNearestCustomerInfo. rewrite scan_no_candidate; [reflexivity|].
  eapply List.Forall_impl; [|exact Hall].
  intros c Hc. simpl in Hc.
  destruct (candidate here c) as [d|] eqn:E; [|reflexivity].
  apply candidate_spec in E as (lat & lon & Hlat & Hlon & _ & _ & Hd & _).
  destruct Hc as [Hc | [Hc | Hc]]; [now destruct Hd | congruence | congruence].
Qed.

Lemma nearest_none_witness :
  @getNearestCustomerInfo Sample.math [Sample.done; Sample.nowhere]
    (Some Sample.here) = None /\
  @getNearestCustomerInfo Sample.math [Sample.north] None = None /\
  @getNearestCustomerInfo Sample.math [] (Some Sample.here) = None.
Proof.
  split; [|split].
  - apply (@nearest_none Sample.math). right.
    constructor; [left; reflexivity|].
    constructor; [right; left; reflexivity | constructor].
  - apply (@nearest_none Sample.math). left. reflexivity.
  - apply (@nearest_none Sample.math). right. constructor.
Defined.

(** ** Coordinates equal to zero *)

Lemma isZero_not_truthy (x : option JS.number) :
  JS.isZero x = true -> JS.truthy_opt x = false.
Proof.
  destruct x as [v|]; simpl; [|reflexivity].
  unfold JS.truthy. now intros ->.
Qed.

Lemma attachDistance_zero `{Math} (currentLocation : option Coords.t)
    (c : Customer) :
  JS.isZero (latitude c) = true \/ JS.isZero (longitude c) = true ->
  attachDistance currentLocation c = mkWithDistance c None.
Proof.
  intros Hz. unfold attachDistance. f_equal.
  destruct currentLocation as [here|]; [|reflexivity].
  destruct (latitude c) as [lat|], (longitude c) as [lon|]; try reflexivity.
  destruct Hz as [Hz|Hz]; apply isZero_not_truthy in Hz; simpl in Hz;
    rewrite Hz; [reflexivity | now rewrite andb_false_r].
Qed.

Lemma candidate_zero `{Math} (here : Coords.t) (c : Customer) :
  JS.isZero (latitude c) = true \/ JS.isZero (longitude c) = true ->
  candidate here c = None.
Proof.
  intros Hz. unfold candidate.
  destruct (latitude c) as [lat|], (longitude c) as [lon|]; try reflexivity.
  destruct Hz as [Hz|Hz]; apply isZero_not_truthy in Hz; simpl in Hz;
    rewrite Hz; [reflexivity | now rewrite andb_false_r].
Qed.

(** Every entry of the output is the [map] callback's value on its customer. *)
Lemma sortedCustomers_entry `{Math} (customers : list Customer)
    (currentLocation : option Coords.t) (searchQuery : string)
    (e : WithDistance (option JS.integral)) :
  In e (sortedCustomers customers currentLocation searchQuery) ->
  e = attachDistance currentLocation (customer e).
Proof.
  intros He. eapply Permutation_in in He; [|apply sortedCustomers_perm].
  unfold customersWithDistance in He.
  apply in_map_iff in He as (c & <- & _). reflexivity.
Qed.

(** C9: a customer whose latitude is 0 or whose longitude is 0 is handled as
    a customer without a position: the [map] callback gives it no distance
    whatever the device position, so each of its entries in the output of
    filterAndRank carries none, and findNearestEligible returns what it
    returns on the input without that customer. *)
Theorem zero_coordinate_is_no_position `{Math} (c : Customer) :
  JS.isZero (latitude c) = true \/ JS.isZero (longitude c) = true ->
  (forall currentLocation,
     distance (attachDistance currentLocation c) = None) /\
  (forall customers currentLocation searchQuery e,
     In e (sortedCustomers customers currentLocation searchQuery) ->
     customer e = c -> distance e = None) /\
  (forall before after currentLocation,
     getNearestCustomerInfo (before ++ c :: after) currentLocation =
     getNearestCustomerInfo (before ++ after) currentLocation).
Proof.
  intros Hz. split; [|split].
  - intros loc. now rewrite attachDistance_zero.
  - intros customers loc q e He <-.
    rewrite (sortedCustomers_entry _ _ _ _ He).
    now rewrite attachDistance_zero.
  - intros before after [here|]; [|reflexivity].
    unfold getNearestCustomerInfo. rewrite !fold_left_app. simpl.
    now rewrite scanCustomer_candidate, candidate_zero.
Qed.

Lemma zero_coordinate_is_no_position_witness :
  (forall currentLocation,
     distance (@attachDistance Sample.math currentLocation Sample.B) = None) /\
  (forall customers currentLocation searchQuery e,
     In e (@sortedCustomers Sample.math customers currentLocation searchQuery) ->
     customer e = Sample.B -> distance e = None) /\
  (forall before after currentLocation,
     @getNearestCustomerInfo Sample.math (before ++ Sample.B :: after)
       currentLocation =
     @getNearestCustomerInfo Sample.math (before ++ after) currentLocation).
Proof.
  apply (@zero_coordinate_is_no_position Sample.math Sample.B).
  left. reflexivity.
Defined.

(** C3 (on the code): in the example of the spec, device at (0,0), A at
    (0,0) and B at (0,1) pending, C at (0,0.5) delivered, the code drops C,
    but it attaches no distance to A or B, whose latitude 0 is falsy, and the
    nearest customer is [null]. *)
Theorem spec_example_on_the_code `{Math} :
  sortedCustomers [Sample.A; Sample.B; Sample.C] (Some Sample.origin) "" =
    [mkWithDistance Sample.A None; mkWithDistance Sample.B None] /\
  getNearestCustomerInfo [Sample.A; Sample.B; Sample.C] (Some Sample.origin)
    = None.
Proof. split; reflexivity. Qed.

(** The distances the example expects are those of the formula, here with
    the reference instance of [Math]. *)
Example distance_A_A :
  @calculateDistance Sample.math 0 0 0 0 = JS.Int 0.
Proof. vm_compute. reflexivity. Qed.

(** ** The flash-message relay *)

(** A [consumeFlash] that returns a message is the call right after the
    [setFlash] that stored it (or the first call, on a slot that held it). *)
Lemma run_returned (cs : list Flash.call) (s : Flash.slot) (j : nat)
    (m : string) :
  fst (Flash.run cs s) !! j = Some (Flash.Returned (Some m)) ->
  cs !! j = Some Flash.ConsumeFlash /\
  match j with
  | O => s = Some m
  | S k => cs !! k = Some (Flash.SetFlash m)
  end.
Proof.
  revert s j. induction cs as [|c cs IH]; intros s j; simpl.
  - intros E. destruct j; discriminate.
  - destruct (Flash.step c s) as [o s1] eqn:Es.
    destruct (Flash.run cs s1) as [os s2] eqn:Er. simpl.
    destruct j as [|k]; simpl.
    + intros [= ->]. destruct c; unfold Flash.step, Flash.setFlash,
        Flash.consumeFlash in Es; simplify_eq. split; reflexivity.
    + intros E. specialize (IH s1 k). rewrite Er in IH.
      destruct (IH E) as [Hk Hprev]. split; [exact Hk|].
      destruct k as [|k']; [|exact Hprev].
      subst s1. destruct c; unfold Flash.step, Flash.setFlash,
        Flash.consumeFlash in Es; simplify_eq. reflexivity.
Qed.

(** C10: the relay is a single slot that is read once.  A [consumeFlash]
    right after [setFlash m] returns [m] and leaves the slot empty; on an
    empty slot it returns [null] and leaves it empty.  In any sequence of
    calls, a [consumeFlash] that returns a message is the call right after
    the [setFlash] that stored it (or the first call, on a slot holding it),
    so a stored message is returned by at most one [consumeFlash]: when two
    [consumeFlash] calls both return a message, the message of the later one
    was stored by a [setFlash] between the two. *)
Theorem flash_read_once :
  (forall (m : string) (s : Flash.slot),
     Flash.consumeFlash (snd (Flash.setFlash m s)) = (Some m, None)) /\
  Flash.consumeFlash None = (None, None) /\
  (forall (cs : list Flash.call) (s : Flash.slot) (j : nat) (m : string),
     fst (Flash.run cs s) !! j = Some (Flash.Returned (Some m)) ->
     cs !! j = Some Flash.ConsumeFlash /\
     match j with
     | O => s = Some m
     | S k => cs !! k = Some (Flash.SetFlash m)
     end) /\
  (forall (cs : list Flash.call) (s : Flash.slot) (i j : nat)
          (mi mj : string),
     (i < j)%nat ->
     fst (Flash.run cs s) !! i = Some (Flash.Returned (Some mi)) ->
     fst (Flash.run cs s) !! j = Some (Flash.Returned (Some mj)) ->
     exists k : nat,
       (i < k < j)%nat /\ cs !! k = Some (Flash.SetFlash mj)).
Proof.
  split; [reflexivity|]. split; [reflexivity|].
  split; [exact run_returned|].
  intros cs s i j mi mj Hij Hi Hj.
  apply run_returned in Hi as [Hi _].
  apply run_returned in Hj as [_ Hj].
  destruct j as [|k]; [lia|]. exists k. split; [|exact Hj].
  assert (i <> k) by (intros ->; congruence). lia.
Qed.

Lemma flash_read_once_witness :
  ([Flash.SetFlash "Customer added successfully"; Flash.ConsumeFlash;
    Flash.SetFlash "again"; Flash.ConsumeFlash] !! 3%nat =
     Some Flash.ConsumeFlash /\
   [Flash.SetFlash "Customer added successfully"; Flash.ConsumeFlash;
    Flash.SetFlash "again"; Flash.ConsumeFlash] !! 2%nat =
     Some (Flash.SetFlash "again")) /\
  exists k : nat,
    (1 < k < 3)%nat /\
    [Flash.SetFlash "Customer added successfully"; Flash.ConsumeFlash;
     Flash.SetFlash "again"; Flash.ConsumeFlash] !! k =
    Some (Flash.SetFlash "again").
Proof.
  split.
  - apply (proj1 (proj2 (proj2 flash_read_once))
             [Flash.SetFlash "Customer added successfully";
              Flash.ConsumeFlash; Flash.SetFlash "again"; Flash.ConsumeFlash]
             Flash.initial 3%nat "again").
    reflexivity.
  - apply (proj2 (proj2 (proj2 flash_read_once))
             [Flash.SetFlash "Customer added successfully";
              Flash.ConsumeFlash; Flash.SetFlash "again"; Flash.ConsumeFlash]
             Flash.initial 1%nat 3%nat "Customer added successfully" "again").
    + lia.
    + reflexivity.
    + reflexivity.
Defined.

(** ** The code on the heap *)

Lemma preserved_refl (h : gmap Heap.loc Heap.Obj) : Heap.preserved h h.
Proof. intros l o E. exact E. Qed.

Lemma preserved_trans (h1 h2 h3 : gmap Heap.loc Heap.Obj) :
  Heap.preserved h1 h2 -> Heap.preserved h2 h3 -> Heap.preserved h1 h3.
Proof. intros H12 H23 l o E. auto. Qed.

Lemma preserved_fresh (h h' : gmap Heap.loc Heap.Obj) (l : Heap.loc) :
  Heap.preserved h h' -> h' !! l = None -> h !! l = None.
Proof.
  intros Hp E. destruct (h !! l) as [o|] eqn:El; [|reflexivity].
  apply Hp in El. congruence.
Qed.

Lemma alloc_spec (o : Heap.Obj) (h : gmap Heap.loc Heap.Obj) :
  exists l, Heap.alloc o h = Some (l, <[l := o]> h) /\ h !! l = None.
Proof.
  exists (fresh (dom h)). split; [reflexivity|].
  apply not_elem_of_dom, is_fresh.
Qed.

Lemma preserved_insert (h : gmap Heap.loc Heap.Obj) (l : Heap.loc)
    (o : Heap.Obj) :
  h !! l = None -> Heap.preserved h (<[l := o]> h).
Proof.
  intros El l' o' E. rewrite lookup_insert_ne; [exact E | congruence].
Qed.

(** The [filter] callback only reads. *)
Lemma filterM_customers (P : Customer -> bool) (h : gmap Heap.loc Heap.Obj)
    (elems : list Heap.loc) (cs : list Customer) :
  Forall2 (fun l c => h !! l = Some (Heap.OCustomer c)) elems cs ->
  exists kept,
    Heap.filterM (fun l => Heap.bind (Heap.readCustomer l)
                             (fun c => Heap.ret (P c))) elems h
      = Some (kept, h) /\
    Forall2 (fun l c => h !! l = Some (Heap.OCustomer c)) kept
      (List.filter P cs).
Proof.
  induction 1 as [|l c elems cs Hl _ (kept & Hrun & Hkept)]; simpl.
  - exists []. split; [reflexivity | constructor].
  - exists (if P c then l :: kept else kept).
    cbv beta iota delta [Heap.bind Heap.ret Heap.readCustomer] in *.
    rewrite Hl, Hrun.
    split; [reflexivity|]. destruct (P c); [constructor|]; assumption.
Qed.

(** The [map] callback reads a customer and allocates one object. *)
Lemma mapM_entries (f : Customer -> WithDistance (option JS.integral))
    (elems : list Heap.loc) (cs : list Customer) :
  forall h : gmap Heap.loc Heap.Obj,
  Forall2 (fun l c => h !! l = Some (Heap.OCustomer c)) elems cs ->
  exists entries h',
    Heap.mapM (fun l => Heap.bind (Heap.readCustomer l)
                          (fun c => Heap.alloc (Heap.OWithDistance (f c))))
      elems h = Some (entries, h') /\
    Heap.preserved h h' /\
    Forall2 (fun l e => h' !! l = Some (Heap.OWithDistance e) /\
                        h !! l = None) entries (List.map f cs).
Proof.
  revert cs. induction elems as [|l elems IH]; intros cs h Hall;
    inversion Hall as [|? c ? cs' Hl Hrest]; subst; simpl.
  - exists [], h. split; [reflexivity|].
    split; [apply preserved_refl | constructor].
  - destruct (alloc_spec (Heap.OWithDistance (f c)) h) as (l1 & Ha & Hf).
    pose proof (preserved_insert h l1 (Heap.OWithDistance (f c)) Hf) as Hp1.
    destruct (IH cs' (<[l1 := Heap.OWithDistance (f c)]> h))
      as (entries & h' & Hrun & Hp & Hent).
    { eapply List.Forall2_impl; [|exact Hrest]. intros a b E. now apply Hp1. }
    exists (l1 :: entries), h'.
    cbv beta iota delta [Heap.bind Heap.ret Heap.readCustomer] in *.
    rewrite Hl, Ha, Hrun. split; [reflexivity|].
    split; [eapply preserved_trans; eassumption|].
    constructor.
    + split; [apply Hp, lookup_insert_eq | exact Hf].
    + eapply List.Forall2_impl; [|exact Hent].
      intros a b [E1 E2]. split; [exact E1|].
      eapply preserved_fresh; eassumption.
Qed.

Lemma mapM_read (h : gmap Heap.loc Heap.Obj) (elems : list Heap.loc)
    (es : list (WithDistance (option JS.integral))) :
  Forall2 (fun l e => h !! l = Some (Heap.OWithDistance e)) elems es ->
  Heap.mapM Heap.readWithDistance elems h = Some (es, h).
Proof.
  induction 1 as [|l e elems es Hl _ IH]; simpl; [reflexivity|].
  cbv beta iota delta [Heap.bind Heap.ret Heap.readWithDistance] in *.
  now rewrite Hl, IH.
Qed.

Lemma holdsCustomers_preserved (h h' : gmap Heap.loc Heap.Obj)
    (a : Heap.loc) (cs : list Customer) :
  Heap.preserved h h' -> Heap.holdsCustomers h a cs ->
  Heap.holdsCustomers h' a cs.
Proof.
  intros Hp (elems & Ha & Hall). exists elems. split; [now apply Hp|].
  eapply List.Forall2_impl; [|exact Hall]. intros l c E. now apply Hp.
Qed.

Lemma heap_filteredCustomers (h : gmap Heap.loc Heap.Obj) (a : Heap.loc)
    (cs : list Customer) (searchQuery : string) :
  Heap.holdsCustomers h a cs ->
  exists r h',
    Heap.filteredCustomers a searchQuery h = Some (r, h') /\
    Heap.preserved h h' /\ h !! r = None /\
    Heap.holdsCustomers h' r (filteredCustomers cs searchQuery).
Proof.
  intros (elems & Ha & Hall).
  destruct (filterM_customers (keepCustomer searchQuery) h elems cs Hall)
    as (kept & Hrun & Hkept).
  destruct (alloc_spec (Heap.OArray kept) h) as (r & Hr & Hf).
  exists r, (<[r := Heap.OArray kept]> h).
  pose proof (preserved_insert h r (Heap.OArray kept) Hf) as Hp.
  split.
  { unfold Heap.filteredCustomers.
    cbv beta iota delta [Heap.bind Heap.ret Heap.readArray Heap.readCustomer]
      in *.
    now rewrite Ha, Hrun, Hr. }
  split; [exact Hp|]. split; [exact Hf|].
  exists kept. split; [apply lookup_insert_eq|].
  eapply List.Forall2_impl; [|exact Hkept]. intros l c E. now apply Hp.
Qed.

Lemma heap_customersWithDistance `{Math} (h : gmap Heap.loc Heap.Obj)
    (a : Heap.loc) (cs : list Customer) (currentLocation : option Coords.t)
    (searchQuery : string) :
  Heap.holdsCustomers h a cs ->
  exists r h' entries,
    Heap.customersWithDistance a currentLocation searchQuery h
      = Some (r, h') /\
    Heap.preserved h h' /\ h !! r = None /\
    h' !! r = Some (Heap.OArray entries) /\
    Forall2 (fun l e => h' !! l = Some (Heap.OWithDistance e) /\
                        h !! l = None)
      entries (customersWithDistance cs currentLocation searchQuery).
Proof.
  intros Hh.
  destruct (heap_filteredCustomers h a cs searchQuery Hh)
    as (f & h1 & Hrun1 & Hp1 & Hf1 & kept & Hkept & Hall1).
  destruct (mapM_entries (attachDistance currentLocation) kept _ h1 Hall1)
    as (entries & h2 & Hrun2 & Hp2 & Hent).
  destruct (alloc_spec (Heap.OArray entries) h2) as (r & Hr & Hf2).
  pose proof (preserved_insert h2 r (Heap.OArray entries) Hf2) as Hp3.
  exists r, (<[r := Heap.OArray entries]> h2), entries.
  split.
  { unfold Heap.customersWithDistance.
    cbv beta iota delta [Heap.bind Heap.ret Heap.readArray Heap.readCustomer]
      in *.
    now rewrite Hrun1, Hkept, Hrun2, Hr. }
  split; [eauto using preserved_trans|].
  split; [eauto using preserved_fresh|].
  split; [apply lookup_insert_eq|].
  eapply List.Forall2_impl; [|exact Hent].
  intros l e [E1 E2]. split; [now apply Hp3 | eauto using preserved_fresh].
Qed.

Lemma sortInsert_snd {A B : Type} (comparefn : B -> B -> JS.integral)
    (p : A * B) (ps : list (A * B)) :
  List.map snd (sortInsert (fun a b => comparefn (snd a) (snd b)) p ps) =
  sortInsert comparefn (snd p) (List.map snd ps).
Proof.
  induction ps as [|p' ps IH]; simpl; [reflexivity|].
  destruct (JS.lt (JS.Int 0) (comparefn (snd p) (snd p'))); simpl;
    [|reflexivity].
  now rewrite IH.
Qed.

Lemma Array_sort_snd {A B : Type} (comparefn : B -> B -> JS.integral)
    (ps : list (A * B)) :
  List.map snd (Array_sort (fun a b => comparefn (snd a) (snd b)) ps) =
  Array_sort comparefn (List.map snd ps).
Proof.
  induction ps as [|p ps IH]; simpl; [reflexivity|].
  now rewrite sortInsert_snd, IH.
Qed.

Lemma Forall2_combine {A B : Type} (R : A -> B -> Prop) (la : list A)
    (lb : list B) :
  Forall2 R la lb ->
  List.map snd (combine la lb) = lb /\
  Forall (fun p => R (fst p) (snd p)) (combine la lb).
Proof.
  induction 1 as [|a b la lb Hab _ [IH1 IH2]]; simpl.
  - split; [reflexivity | constructor].
  - split; [now rewrite IH1 | now constructor].
Qed.

Lemma Forall_pairs_Forall2 {A B : Type} (R : A -> B -> Prop)
    (ps : list (A * B)) :
  Forall (fun p => R (fst p) (snd p)) ps ->
  Forall2 R (List.map fst ps) (List.map snd ps).
Proof. induction 1; simpl; constructor; assumption. Qed.

(** [sort] reorders the references of the array it is given, and writes
    nowhere else. *)
Lemma heap_sort (comparefn : WithDistance (option JS.integral) ->
                             WithDistance (option JS.integral) ->
                             JS.integral)
    (Q : Heap.loc -> Prop)
    (h : gmap Heap.loc Heap.Obj) (r : Heap.loc) (entries : list Heap.loc)
    (es : list (WithDistance (option JS.integral))) :
  h !! r = Some (Heap.OArray entries) ->
  Forall2 (fun l e => h !! l = Some (Heap.OWithDistance e) /\ Q l)
    entries es ->
  exists sorted,
    Heap.sort comparefn r h = Some (r, <[r := Heap.OArray sorted]> h) /\
    Forall2 (fun l e => h !! l = Some (Heap.OWithDistance e) /\ Q l) sorted
      (Array_sort comparefn es).
Proof.
  intros Hr Hall.
  set (ps := Array_sort (fun a b => comparefn (snd a) (snd b))
               (combine entries es)).
  exists (List.map fst ps). split.
  - unfold Heap.sort.
    cbv beta iota delta [Heap.bind Heap.ret Heap.readArray Heap.writeArray].
    rewrite Hr, (mapM_read h entries es), Hr; [reflexivity|].
    eapply List.Forall2_impl; [|exact Hall]. now intros l e [E _].
  - destruct (Forall2_combine _ _ _ Hall) as [Hsnd Hpairs].
    replace (Array_sort comparefn es) with (List.map snd ps)
      by (subst ps; now rewrite Array_sort_snd, Hsnd).
    apply Forall_pairs_Forall2
      with (R := fun l e => h !! l = Some (Heap.OWithDistance e) /\ Q l).
    eapply Permutation_Forall; [|exact Hpairs].
    symmetry. apply Array_sort_perm.
Qed.

Lemma heap_scanCustomer `{Math} (here : Coords.t)
    (h0 h : gmap Heap.loc Heap.Obj) (l : Heap.loc) (c : Customer)
    (sl : option Heap.loc * JS.integral) (st : ScanState) :
  h !! l = Some (Heap.OCustomer c) ->
  Heap.preserved h0 h ->
  Heap.holdsResult h0 h (fst sl) (fst st) -> snd sl = snd st ->
  exists sl' h',
    Heap.scanCustomer here sl l h = Some (sl', h') /\
    Heap.preserved h h' /\
    Heap.holdsResult h0 h' (fst sl') (fst (scanCustomer here st c)) /\
    snd sl' = snd (scanCustomer here st c).
Proof.
  intros Hl Hp Hres Hmin.
  assert (Hsame : exists sl' h',
            Heap.ret sl h = Some (sl', h') /\ Heap.preserved h h' /\
            Heap.holdsResult h0 h' (fst sl') (fst st) /\ snd sl' = snd st).
  { exists sl, h. repeat split; auto using preserved_refl. }
  unfold Heap.scanCustomer, scanCustomer.
  cbv beta iota delta [Heap.bind Heap.readCustomer]. rewrite Hl.
  destruct (latitude c) as [lat|], (longitude c) as [lon|]; try exact Hsame.
  destruct (negb (JS.truthy lat) || negb (JS.truthy lon)); [exact Hsame|].
  destruct (statusIsDelivered c); [exact Hsame|].
  rewrite Hmin.
  destruct (ltMinimum _ (snd st)); [|exact Hsame].
  set (n := mkWithDistance c _).
  destruct (alloc_spec (Heap.ONearest n) h) as (l1 & Ha & Hf).
  exists (Some l1, distance n), (<[l1 := Heap.ONearest n]> h).
  rewrite Ha. split; [reflexivity|].
  split; [now apply preserved_insert|].
  split; [|reflexivity].
  simpl. split; [apply lookup_insert_eq | eauto using preserved_fresh].
Qed.

Lemma heap_scan `{Math} (here : Coords.t) (h0 : gmap Heap.loc Heap.Obj)
    (elems : list Heap.loc) :
  forall (cs : list Customer) (h : gmap Heap.loc Heap.Obj)
         (sl : option Heap.loc * JS.integral) (st : ScanState),
  Forall2 (fun l c => h !! l = Some (Heap.OCustomer c)) elems cs ->
  Heap.preserved h0 h ->
  Heap.holdsResult h0 h (fst sl) (fst st) -> snd sl = snd st ->
  exists sl' h',
    Heap.foldM (Heap.scanCustomer here) elems sl h = Some (sl', h') /\
    Heap.preserved h h' /\
    Heap.holdsResult h0 h' (fst sl')
      (fst (fold_left (scanCustomer here) cs st)) /\
    snd sl' = snd (fold_left (scanCustomer here) cs st).
Proof.
  induction elems as [|l elems IH]; intros cs h sl st Hall Hp Hres Hmin;
    inversion Hall as [|? c ? cs' Hl Hrest]; subst; simpl.
  - exists sl, h. repeat split; auto using preserved_refl.
  - destruct (heap_scanCustomer here h0 h l c sl st Hl Hp Hres Hmin)
      as (sl1 & h1 & Hrun1 & Hp1 & Hres1 & Hmin1).
    destruct (IH cs' h1 sl1 (scanCustomer here st c))
      as (sl2 & h2 & Hrun2 & Hp2 & Hres2 & Hmin2);
      [|eauto using preserved_trans|exact Hres1|exact Hmin1|].
    { eapply List.Forall2_impl; [|exact Hrest]. intros a b E. now apply Hp1. }
    exists sl2, h2. unfold Heap.bind. rewrite Hrun1.
    split; [exact Hrun2|]. split; [eauto using preserved_trans|].
    split; assumption.
Qed.

(** C8: started on any heap in which the array [customers] holds the records
    [cs], filterAndRank ([Heap.sortedCustomers]) and findNearestEligible
    ([Heap.getNearestCustomerInfo]) run to the end and leave every object of
    that heap as it was, the input array and each customer record included.
    The ranking returns an array that did not exist before, whose elements
    are objects that did not exist before; the nearest pick is [null] or an
    object that did not exist before.  What they hold is [sortedCustomers]
    and [getNearestCustomerInfo] of the records, the device position and the
    query: functions of these arguments and of nothing else. *)
Theorem ranking_leaves_input_unchanged `{Math}
    (h : gmap Heap.loc Heap.Obj) (customers : Heap.loc)
    (cs : list Customer) (currentLocation : option Coords.t)
    (searchQuery : string) :
  Heap.holdsCustomers h customers cs ->
  (exists r h' entries,
     Heap.sortedCustomers customers currentLocation searchQuery h
       = Some (r, h') /\
     Heap.preserved h h' /\
     Heap.holdsCustomers h' customers cs /\
     h !! r = None /\
     h' !! r = Some (Heap.OArray entries) /\
     Forall2 (fun l e => h' !! l = Some (Heap.OWithDistance e) /\
                         h !! l = None)
       entries (sortedCustomers cs currentLocation searchQuery)) /\
  (exists r h',
     Heap.getNearestCustomerInfo customers currentLocation h
       = Some (r, h') /\
     Heap.preserved h h' /\
     Heap.holdsCustomers h' customers cs /\
     Heap.holdsResult h h' r (getNearestCustomerInfo cs currentLocation)).
Proof.
  intros Hh. split.
  - destruct (heap_customersWithDistance h customers cs currentLocation
                searchQuery Hh)
      as (r & h1 & entries & Hrun1 & Hp1 & Hf & Hr & Hent).
    destruct (heap_sort compareDistance (fun l => h !! l = None) h1 r entries
                _ Hr Hent) as (sorted & Hrun2 & Hsorted).
    assert (Hp2 : Heap.preserved h (<[r := Heap.OArray sorted]> h1)).
    { intros l o E. rewrite lookup_insert_ne; [now apply Hp1 | congruence]. }
    exists r, (<[r := Heap.OArray sorted]> h1), sorted.
    split.
    { unfold Heap.sortedCustomers, Heap.bind. now rewrite Hrun1. }
    split; [exact Hp2|].
    split; [eauto using holdsCustomers_preserved|].
    split; [exact Hf|].
    split; [apply lookup_insert_eq|].
    eapply List.Forall2_impl; [|exact Hsorted].
    intros l e [E1 E2]. split; [|exact E2].
    rewrite lookup_insert_ne; [exact E1 | congruence].
  - destruct currentLocation as [here|].
    + destruct Hh as (elems & Ha & Hall).
      destruct (heap_scan here h elems cs h (None, JS.Infinity)
                  (None, JS.Infinity)
                  Hall (preserved_refl h) I eq_refl)
        as (sl & h' & Hrun & Hp & Hres & _).
      exists (fst sl), h'. split.
      { unfold Heap.getNearestCustomerInfo.
        cbv beta iota delta [Heap.bind Heap.ret Heap.readArray].
        now rewrite Ha, Hrun. }
      split; [exact Hp|].
      split; [|exact Hres].
      apply (holdsCustomers_preserved h h'); [exact Hp|].
      exists elems. auto.
    + exists None, h. split; [reflexivity|].
      split; [apply preserved_refl|]. split; [exact Hh | exact I].
Qed.

Lemma ranking_leaves_input_unchanged_witness :
  (exists r h' entries,
     @Heap.sortedCustomers Sample.math 3%positive (Some Sample.here) ""
       Sample.heap = Some (r, h') /\
     Heap.preserved Sample.heap h' /\
     Heap.holdsCustomers h' 3%positive [Sample.north; Sample.done] /\
     Sample.heap !! r = None /\
     h' !! r = Some (Heap.OArray entries) /\
     Forall2 (fun l e => h' !! l = Some (Heap.OWithDistance e) /\
                         Sample.heap !! l = None)
       entries
       (@sortedCustomers Sample.math [Sample.north; Sample.done]
          (Some Sample.here) "")) /\
  (exists r h',
     @Heap.getNearestCustomerInfo Sample.math 3%positive (Some Sample.here)
       Sample.heap = Some (r, h') /\
     Heap.preserved Sample.heap h' /\
     Heap.holdsCustomers h' 3%positive [Sample.north; Sample.done] /\
     Heap.holdsResult Sample.heap h' r
       (@getNearestCustomerInfo Sample.math [Sample.north; Sample.done]
          (Some Sample.here))).
Proof.
  apply (@ranking_leaves_input_unchanged Sample.math).
  exists [1%positive; 2%positive]. split; [reflexivity|].
  constructor; [reflexivity|]. constructor; [reflexivity | constructor].
Defined.

(** ** Binary64 arithmetic

    Facts of IEEE 754 arithmetic used by [calculateDistance], from the
    specification of the primitive operations: negation commutes with
    multiplication and division, multiplication is commutative, and
    swapping the operands of a subtraction negates the result (or leaves a
    zero). *)

Lemma opp_binary_round_aux (s : bool) (m e : Z) (l : SpecFloat.location) :
  SFopp (binary_round_aux prec emax s m e l) =
  binary_round_aux prec emax (negb s) m e l.
Proof.
  unfold binary_round_aux.
  destruct (shr_fexp prec emax m e l) as [mrs e'].
  destruct (shr_fexp prec emax _ e' loc_Exact) as [mrs' e''].
  destruct (shr_m mrs'); try reflexivity.
  destruct (e'' <=? emax - prec); reflexivity.
Qed.

Lemma opp_binary_round (s : bool) (m : positive) (e : Z) :
  SFopp (binary_round prec emax s m e) = binary_round prec emax (negb s) m e.
Proof.
  unfold binary_round.
  destruct (shl_align m e _) as [mz ez]. apply opp_binary_round_aux.
Qed.

Lemma opp_binary_normalize (m e : Z) :
  m <> 0 ->
  SFopp (binary_normalize prec emax m e false) =
  binary_normalize prec emax (- m) e false.
Proof.
  destruct m; simpl; intros Hm; [congruence| |]; apply opp_binary_round.
Qed.

Lemma SFopp_involutive (x : spec_float) : SFopp (SFopp x) = x.
Proof. destruct x as [[]|[]| |[] m e]; reflexivity. Qed.

Lemma SFmul_opp_l (x y : spec_float) :
  SFmul prec emax (SFopp x) y = SFopp (SFmul prec emax x y).
Proof.
  destruct x as [sx|sx| |sx mx ex], y as [sy|sy| |sy my ey]; simpl;
    try reflexivity; try (destruct sx, sy; reflexivity).
  rewrite opp_binary_round_aux. destruct sx, sy; reflexivity.
Qed.

Lemma SFmul_comm (x y : spec_float) :
  SFmul prec emax x y = SFmul prec emax y x.
Proof.
  destruct x as [sx|sx| |sx mx ex], y as [sy|sy| |sy my ey]; simpl;
    try reflexivity; try (destruct sx, sy; reflexivity).
  now rewrite Pos.mul_comm, Z.add_comm, xorb_comm.
Qed.

Lemma SFdiv_opp_l (x y : spec_float) :
  SFdiv prec emax (SFopp x) y = SFopp (SFdiv prec emax x y).
Proof.
  destruct x as [sx|sx| |sx mx ex], y as [sy|sy| |sy my ey]; simpl;
    try reflexivity; try (destruct sx, sy; reflexivity).
  destruct (SFdiv_core_binary prec emax _ ex _ ey) as [[mz ez] lz].
  rewrite opp_binary_round_aux. destruct sx, sy; reflexivity.
Qed.

Lemma SFsub_swap (x y : spec_float) :
  SFsub prec emax y x = SFopp (SFsub prec emax x y) \/
  SFsub prec emax y x = SFsub prec emax x y.
Proof.
  destruct x as [sx|sx| |sx mx ex], y as [sy|sy| |sy my ey]; simpl;
    try (left; reflexivity); try (destruct sx, sy; auto; fail).
  rewrite (Z.min_comm ey ex).
  set (a := cond_Zopp sx _). set (b := cond_Zopp sy _).
  destruct (Z.eq_dec (a - b) 0) as [E|E].
  - right. replace (b - a) with 0 by lia. now rewrite E.
  - left. rewrite opp_binary_normalize by exact E. f_equal. lia.
Qed.

Lemma float_opp_opp (x : float) : (- - x = x)%float.
Proof. apply Prim2SF_inj. rewrite !opp_spec. apply SFopp_involutive. Qed.

Lemma float_mul_opp_l (x y : float) : (- x * y = - (x * y))%float.
Proof.
  apply Prim2SF_inj. rewrite opp_spec, !mul_spec, opp_spec. apply SFmul_opp_l.
Qed.

Lemma float_mul_comm (x y : float) : (x * y = y * x)%float.
Proof. apply Prim2SF_inj. rewrite !mul_spec. apply SFmul_comm. Qed.

Lemma float_mul_opp_r (x y : float) : (x * - y = - (x * y))%float.
Proof. now rewrite float_mul_comm, float_mul_opp_l, float_mul_comm. Qed.

Lemma float_div_opp_l (x y : float) : (- x / y = - (x / y))%float.
Proof.
  apply Prim2SF_inj. rewrite opp_spec, !div_spec, opp_spec. apply SFdiv_opp_l.
Qed.

Lemma float_sub_swap (x y : float) :
  (y - x = - (x - y))%float \/ (y - x = x - y)%float.
Proof.
  destruct (SFsub_swap (Prim2SF x) (Prim2SF y)) as [E|E]; [left|right];
    apply Prim2SF_inj; rewrite ?opp_spec, !sub_spec; exact E.
Qed.

(** ** [calculateDistance] *)

(** The half angle [d * Math.PI / 180 / 2] of a difference [d] in degrees. *)
Lemma halfAngle_opp (d : float) :
  (- d * Math_PI / 180 / 2 = - (d * Math_PI / 180 / 2))%float.
Proof. now rewrite float_mul_opp_l, !float_div_opp_l. Qed.

Lemma sin_halfAngle_swap `{Math} (x y : float) :
  (forall t, Math_sin (- t) = (- Math_sin t)%float) ->
  Math_sin ((y - x) * Math_PI / 180 / 2) =
    (- Math_sin ((x - y) * Math_PI / 180 / 2))%float \/
  Math_sin ((y - x) * Math_PI / 180 / 2) =
    Math_sin ((x - y) * Math_PI / 180 / 2).
Proof.
  intros Hodd. destruct (float_sub_swap x y) as [-> | ->]; [left|now right].
  now rewrite halfAngle_opp, Hodd.
Qed.

(** X18: the distance does not depend on the order of the two points, for
    every engine whose [Math.sin] is odd and for all numbers, in binary64
    arithmetic.  (Whether the result is non-negative and not [NaN] depends
    on how accurately the engine's [sin] and [cos] are rounded.) *)
Theorem calculateDistance_symmetric `{Math}
    (lat1 lon1 lat2 lon2 : float) :
  (forall t, Math_sin (- t) = (- Math_sin t)%float) ->
  calculateDistance lat1 lon1 lat2 lon2 =
  calculateDistance lat2 lon2 lat1 lon1.
Proof.
  intros Hodd. unfold calculateDistance. cbv zeta.
  destruct (sin_halfAngle_swap lat1 lat2 Hodd) as [-> | ->];
  destruct (sin_halfAngle_swap lon1 lon2 Hodd) as [-> | ->];
  rewrite (float_mul_comm (Math_cos (lat1 * Math_PI / 180)));
  rewrite ?float_mul_opp_l, ?float_mul_opp_r, ?float_opp_opp;
  rewrite ?float_mul_opp_l, ?float_mul_opp_r, ?float_opp_opp;
  reflexivity.
Qed.

Lemma is_finite_cases (x : float) :
  is_finite x = true ->
  (exists s, Prim2SF x = S754_zero s) \/
  (exists s m e, Prim2SF x = S754_finite s m e).
Proof.
  unfold is_finite, is_nan, is_infinity.
  rewrite !FloatAxioms.eqb_spec, abs_spec.
  destruct (Prim2SF x) as [s|s| |s m e] eqn:E; intros Hf.
  - left. eauto.
  - exfalso. destruct s; vm_compute in Hf; discriminate.
  - exfalso. vm_compute in Hf. discriminate.
  - right. eauto.
Qed.

Lemma float_sub_diag (x : float) : is_finite x = true -> (x - x = 0)%float.
Proof.
  intros Hf. apply Prim2SF_inj. rewrite sub_spec.
  change (Prim2SF 0) with (S754_zero false).
  destruct (is_finite_cases x Hf) as [[s ->] | (s & m & e & ->)].
  - destruct s; reflexivity.
  - unfold SF64sub, SFsub. now rewrite Z.sub_diag.
Qed.

(** A finite number times [+0] times [+0], added to [+0], is [+0]. *)
Lemma float_zero_term (p : float) :
  is_finite p = true -> (0 + p * 0 * 0 = 0)%float.
Proof.
  intros Hf. apply Prim2SF_inj. rewrite add_spec, !mul_spec.
  change (Prim2SF 0) with (S754_zero false).
  destruct (is_finite_cases p Hf) as [[s ->] | (s & m & e & ->)];
    destruct s; reflexivity.
Qed.

(** X19: the distance from a point with finite coordinates to itself is 0,
    when the engine gives the exact values ECMA-262 and IEEE 754 name for
    [sin 0], [sqrt 0], [sqrt 1] and [atan2 0 1], and the square of its cosine
    is finite. *)
Theorem calculateDistance_same_point `{Math} (lat lon : float) :
  is_finite lat = true -> is_finite lon = true ->
  Math_sin 0 = 0%float ->
  is_finite (Math_cos (lat * Math_PI / 180) * Math_cos (lat * Math_PI / 180))
    = true ->
  Math_sqrt 0 = 0%float -> Math_sqrt 1 = 1%float ->
  Math_atan2 0 1 = 0%float ->
  calculateDistance lat lon lat lon = JS.Int 0.
Proof.
  intros Hlat Hlon Hsin Hcos Hsqrt0 Hsqrt1 Hatan.
  unfold calculateDistance. cbv zeta.
  rewrite (float_sub_diag lat Hlat), (float_sub_diag lon Hlon).
  change (0 * Math_PI / 180 / 2)%float with 0%float.
  rewrite Hsin. change (0 * 0)%float with 0%float.
  rewrite (float_zero_term _ Hcos), Hsqrt0.
  change (1 - 0)%float with 1%float. rewrite Hsqrt1, Hatan.
  change (6371000 * (2 * 0))%float with 0%float. reflexivity.
Qed.

Lemma calculateDistance_same_point_sample :
  @calculateDistance Sample.math 1 1 1 1 = JS.Int 0.
Proof.
  apply (@calculateDistance_same_point Sample.math); vm_compute; reflexivity.
Defined.

Lemma sample_sin_odd (t : float) :
  Sample.sin (- t) = (- Sample.sin t)%float.
Proof.
  unfold Sample.sin. cbv zeta.
  now rewrite !float_mul_opp_l, !float_mul_opp_r, !float_opp_opp.
Qed.

Lemma calculateDistance_symmetric_sample :
  @calculateDistance Sample.math 1 1 1.001953125 1.0009765625 =
  @calculateDistance Sample.math 1.001953125 1.0009765625 1 1.
Proof.
  apply (@calculateDistance_symmetric Sample.math). exact sample_sin_odd.
Defined.

(** The haversine term of the opposite pair, as binary64 arithmetic leaves
    it: one unit in the last place above 1. *)
Example haversine_term_opposite :
  let s := Antipodal.sin ((-8 - 8) * Math_PI / 180 / 2) in
  let t := Antipodal.sin ((90 - -90) * Math_PI / 180 / 2) in
  let a := (s * s + Antipodal.cos (8 * Math_PI / 180) *
                    Antipodal.cos (-8 * Math_PI / 180) * t * t)%float in
  a = 0x1.0000000000001p+0%float /\
  PrimFloat.ltb (1 - a) 0 = true /\
  PrimFloat.is_nan (PrimFloat.sqrt (1 - a)) = true.
Proof. vm_compute. repeat split; reflexivity. Qed.

(** C7 (on the code): for the device at (8, -90) and the point (-8, 90),
    both within the ranges, rounding leaves the haversine term [a] above 1:
    [1 - a] is negative, [Math.sqrt(1 - a)] is [NaN], and so are
    [Math.atan2], the product with the radius and [Math.round] of it.  The
    result of [calculateDistance] is [NaN], in both directions, which is not
    a non-negative integer. *)
Theorem calculateDistance_opposite_point :
  @calculateDistance Antipodal.math 8 (-90) (-8) 90 = JS.NaN /\
  @calculateDistance Antipodal.math (-8) 90 8 (-90) = JS.NaN /\
  (forall z : Z,
     @calculateDistance Antipodal.math 8 (-90) (-8) 90 <> JS.Int z).
Proof.
  assert (E : @calculateDistance Antipodal.math 8 (-90) (-8) 90 = JS.NaN)
    by (vm_compute; reflexivity).
  split; [exact E|]. split; [vm_compute; reflexivity|].
  intros z. rewrite E. discriminate.
Qed.

(** * Further properties of the screens *)

(** ** The nearest pick and the list *)

(** The shape of the result of [getNearestCustomerInfo], for every input. *)
Lemma nearest_result_shape `{Math} (customers : list Customer)
    (here : Coords.t) :
  match getNearestCustomerInfo customers (Some here) with
  | None => Forall (fun c => measured here c = None) customers
  | Some n =>
      exists before after,
        customers = before ++ customer n :: after /\
        measured here (customer n) = Some (distance n) /\
        (forall x dx, In x before -> measured here x = Some dx ->
                      JS.lt (distance n) dx = true) /\
        (forall x dx, In x after -> measured here x = Some dx ->
                      JS.le (distance n) dx = true)
  end.
Proof.
  destruct (first_minimum_exists here customers)
    as [Hnone | (before & c & after & d & -> & Hc & Hb & Ha)].
  - unfold getNearestCustomerInfo. rewrite scan_not_measured by exact Hnone.
    exact Hnone.
  - rewrite (nearest_first_minimum before after c here d Hc Hb Ha).
    exists before, after. simpl. auto.
Qed.

Lemma nearest_None_iff `{Math} (customers : list Customer)
    (here : Coords.t) :
  getNearestCustomerInfo customers (Some here) = None <->
  Forall (fun c => measured here c = None) customers.
Proof.
  split.
  - intros E. pose proof (nearest_result_shape customers here) as Hs.
    now rewrite E in Hs.
  - intros Hnone. unfold getNearestCustomerInfo.
    now rewrite scan_not_measured.
Qed.

(** X1: the result of [getNearestCustomerInfo] for a known device position,
    for every input.  The scan measures a customer when it does not skip it
    and its distance is below [Infinity], hence not [NaN].  The result is
    [null] exactly when the scan measures no customer; otherwise it is the
    first customer, in input order, among those at the smallest measured
    distance, with that distance. *)
Theorem nearest_characterised `{Math} (customers : list Customer)
    (here : Coords.t) :
  match getNearestCustomerInfo customers (Some here) with
  | None => Forall (fun c => measured here c = None) customers
  | Some n =>
      exists before after,
        customers = before ++ customer n :: after /\
        measured here (customer n) = Some (distance n) /\
        (forall x dx, In x before -> measured here x = Some dx ->
                      JS.lt (distance n) dx = true) /\
        (forall x dx, In x after -> measured here x = Some dx ->
                      JS.le (distance n) dx = true)
  end.
Proof. apply nearest_result_shape. Qed.

Lemma cardCandidate_candidate `{Math} (here : Coords.t) (c : Customer) :
  Home.cardCandidate c = true <-> candidate here c <> None.
Proof.
  unfold Home.cardCandidate, candidate, statusIsDelivered.
  destruct (latitude c) as [lat|], (longitude c) as [lon|]; simpl;
    try (split; [discriminate | congruence]).
  - rewrite negb_andb.
    destruct (JS.truthy lat && JS.truthy lon &&
              (negb (JS.truthy_string (status c)) ||
               negb (String.eqb (JS.toLowerCase (status c)) "delivered")));
      split; congruence.
  - rewrite andb_false_r. split; [discriminate | congruence].
Qed.

Lemma no_candidate_no_card `{Math} (here : Coords.t)
    (customers : list Customer) :
  existsb Home.cardCandidate customers = false <->
  Forall (fun c => candidate here c = None) customers.
Proof.
  induction customers as [|c l IH]; simpl.
  - split; [constructor | reflexivity].
  - rewrite orb_false_iff, IH. split.
    + intros [Hc Hl]. constructor; [|exact Hl].
      destruct (candidate here c) eqn:E; [|reflexivity].
      assert (Home.cardCandidate c = true)
        by (apply (cardCandidate_candidate here); congruence).
      congruence.
    + intros Hall. inversion Hall as [|? ? Hc Hl]; subst. split; [|exact Hl].
      destruct (Home.cardCandidate c) eqn:E; [|reflexivity].
      apply (cardCandidate_candidate here) in E. contradiction.
Qed.

(** X2: when the nearest-customer card shows "Calculating distance...".
    Without a device position it does whenever it is rendered.  With a
    device position it does only when the test [customers.some(...)] has
    found a customer the scan does not skip and yet the scan measures none:
    each computed distance is [NaN] (or [Infinity]), and the line then stays
    for as long as that is so. *)
Theorem card_calculating_when_nothing_measured `{Math} (loading : bool)
    (error : option string) (customers : list Customer)
    (currentLocation : option Coords.t) :
  Home.nearestCard loading error customers currentLocation
    = Home.Calculating <->
  loading = false /\
  Home.truthyMessage error = false /\
  existsb Home.cardCandidate customers = true /\
  match currentLocation with
  | None => True
  | Some here => Forall (fun c => measured here c = None) customers
  end.
Proof.
  unfold Home.nearestCard.
  destruct loading, (Home.truthyMessage error); simpl;
    try (split; [discriminate | intros (? & ? & _); discriminate]).
  destruct (existsb Home.cardCandidate customers) eqn:Ex;
    [|split; [discriminate | intros (_ & _ & ? & _); discriminate]].
  destruct currentLocation as [here|].
  - rewrite <- nearest_None_iff.
    destruct (getNearestCustomerInfo customers (Some here)) as [n|].
    + split; [discriminate | intros (_ & _ & _ & [=])].
    + split; auto.
  - simpl. split; auto.
Qed.

Example card_calculating_at_opposite_point :
  @Home.nearestCard Antipodal.math false None [Antipodal.opposite]
    (Some Antipodal.device) = Home.Calculating.
Proof. vm_compute. reflexivity. Qed.

(** An element the comparator puts strictly before everything in front of
    it and not after anything behind it comes out first. *)
Lemma Array_sort_first {A : Type} (comparefn : A -> A -> JS.integral)
    (before after : list A) (c : A) :
  (forall x, In x before -> JS.lt (JS.Int 0) (comparefn x c) = true) ->
  (forall y, In y after -> keepsBefore comparefn c y) ->
  Array_sort comparefn (before ++ c :: after) =
  c :: Array_sort comparefn (before ++ after).
Proof.
  intros Hb Ha. induction before as [|b before IH]; simpl.
  - destruct (Array_sort comparefn after) as [|y s] eqn:Es; [reflexivity|].
    simpl. assert (Hy : In y after).
    { eapply Permutation_in; [apply Array_sort_perm|]. rewrite Es. now left. }
    apply Ha in Hy. unfold keepsBefore in Hy. now rewrite Hy.
  - rewrite IH by (intros x Hx; apply Hb; now right). simpl.
    assert (Hbc : JS.lt (JS.Int 0) (comparefn b c) = true)
      by (apply Hb; now left).
    now rewrite Hbc.
Qed.

(** A kept customer to which the [map] callback gives a distance is one the
    scan of [getNearestCustomerInfo] does not skip, at the same distance. *)
Lemma kept_distance_candidate `{Math} (here : Coords.t)
    (searchQuery : string) (c : Customer) (d : JS.integral) :
  keepCustomer searchQuery c = true ->
  distance (attachDistance (Some here) c) = Some d ->
  candidate here c = Some d.
Proof.
  intros Hk%keepCustomer_not_delivered.
  rewrite <- statusIsDelivered_isDelivered in Hk.
  unfold attachDistance, candidate. simpl. rewrite Hk.
  destruct (latitude c) as [lat|], (longitude c) as [lon|];
    try discriminate.
  destruct (JS.truthy lat && JS.truthy lon); [auto | discriminate].
Qed.

Lemma candidate_distance `{Math} (here : Coords.t) (c : Customer)
    (d : JS.integral) :
  candidate here c = Some d ->
  attachDistance (Some here) c = mkWithDistance c (Some d).
Proof.
  unfold attachDistance, candidate.
  destruct (latitude c) as [lat|], (longitude c) as [lon|];
    try discriminate.
  destruct (JS.truthy lat && JS.truthy lon); simpl; [|discriminate].
  destruct (statusIsDelivered c); simpl; [discriminate|]. now intros [= ->].
Qed.

(** A candidate whose distance is neither [NaN] nor measured is at
    [Infinity]. *)
Lemma candidate_not_measured `{Math} (here : Coords.t) (c : Customer)
    (d : JS.integral) :
  candidate here c = Some d -> measured here c = None ->
  d = JS.NaN \/ d = JS.Infinity.
Proof.
  unfold measured. intros ->.
  destruct (JS.lt d JS.Infinity) eqn:E; [discriminate|]. intros _.
  destruct d; auto; discriminate.
Qed.

(** X3: when the nearest customer passes the search filter (always so for
    an empty query) and no row of the list has a [NaN] distance, the nearest
    customer is the first row of the list, with the distance shown on the
    card. *)
Theorem nearest_is_first_row `{Math} (customers : list Customer)
    (here : Coords.t) (searchQuery : string) (n : WithDistance JS.integral) :
  getNearestCustomerInfo customers (Some here) = Some n ->
  keepCustomer searchQuery (customer n) = true ->
  Forall distanceNotNaN
    (customersWithDistance customers (Some here) searchQuery) ->
  exists rest,
    sortedCustomers customers (Some here) searchQuery =
    mkWithDistance (customer n) (Some (distance n)) :: rest.
Proof.
  intros Hn Hk Hnum. pose proof (nearest_result_shape customers here) as Hc.
  rewrite Hn in Hc. destruct Hc as (before & after & -> & Hc & Hb & Ha).
  apply measured_Some in Hc as [Hc Hfin].
  unfold sortedCustomers.
  unfold customersWithDistance, filteredCustomers in *.
  rewrite List.filter_app in *. simpl in *. rewrite Hk in *.
  rewrite List.map_app in *. simpl in *.
  rewrite (candidate_distance here _ _ Hc) in *.
  rewrite List.Forall_forall in Hnum.
  eexists. apply Array_sort_first.
  - intros e He.
    assert (Ne : distanceNotNaN e) by (apply Hnum, in_or_app; now left).
    apply in_map_iff in He as (x & <- & Hx).
    apply filter_In in Hx as [Hx Hkx].
    rewrite compareDistance_after. unfold distanceNotNaN in Ne.
    destruct (distance (attachDistance (Some here) x)) as [dx|] eqn:Ex;
      simpl; [|reflexivity].
    apply (kept_distance_candidate here searchQuery) in Ex; [|exact Hkx].
    destruct (measured here x) as [dx'|] eqn:Em.
    + pose proof Em as [Ec _]%measured_Some.
      assert (dx' = dx) by congruence. subst dx'. exact (Hb x dx Hx Em).
    + destruct (candidate_not_measured here x dx Ex Em) as [-> | ->];
        [congruence | exact Hfin].
  - intros e He. apply in_map_iff in He as (x & <- & Hx).
    apply filter_In in Hx as [Hx Hkx]. unfold keepsBefore.
    rewrite compareDistance_after.
    destruct (distance (attachDistance (Some here) x)) as [dx|] eqn:Ex;
      simpl; [|reflexivity].
    apply (kept_distance_candidate here searchQuery) in Ex; [|exact Hkx].
    destruct (measured here x) as [dx'|] eqn:Em.
    + pose proof Em as [Ec _]%measured_Some.
      assert (dx' = dx) by congruence. subst dx'.
      apply le_lt_false. exact (Ha x dx Hx Em).
    + destruct (candidate_not_measured here x dx Ex Em) as [-> | ->];
        [reflexivity|]. destruct (distance n); reflexivity.
Qed.

Ltac no_NaN_rows :=
  vm_compute; repeat (constructor; [discriminate|]); constructor.

Lemma nearest_is_first_row_witness :
  exists rest,
    @sortedCustomers Sample.math
      [Sample.nowhere; Sample.south; Sample.far; Sample.north; Sample.done]
      (Some Sample.here) "" =
    mkWithDistance Sample.south (Some (JS.Int 54)) :: rest.
Proof.
  apply (@nearest_is_first_row Sample.math
           [Sample.nowhere; Sample.south; Sample.far; Sample.north;
            Sample.done]
           Sample.here "" (mkWithDistance Sample.south (JS.Int 54))).
  - vm_compute. reflexivity.
  - reflexivity.
  - no_NaN_rows.
Defined.

(** X4: no row of the list shows a smaller distance than the nearest-customer
    card, whatever the search query: a row that shows a distance, an integer,
    belongs to a customer the nearest pick has measured. *)
Theorem no_row_closer_than_nearest `{Math} (customers : list Customer)
    (here : Coords.t) (searchQuery : string)
    (e : WithDistance (option JS.integral)) (d : Z) :
  In e (sortedCustomers customers (Some here) searchQuery) ->
  distance e = Some (JS.Int d) ->
  exists n,
    getNearestCustomerInfo customers (Some here) = Some n /\
    JS.le (distance n) (JS.Int d) = true.
Proof.
  intros He Hd.
  assert (Hc : measured here (customer e) = Some (JS.Int d) /\
               In (customer e) customers).
  { rewrite (sortedCustomers_entry _ _ _ _ He) in Hd.
    eapply Permutation_in in He; [|apply sortedCustomers_perm].
    unfold customersWithDistance, filteredCustomers in He.
    apply in_map_iff in He as (c & <- & Hc). simpl in *.
    apply filter_In in Hc as [Hin Hk].
    split; [|exact Hin]. apply measured_Some. split; [|reflexivity].
    eapply kept_distance_candidate; eassumption. }
  destruct Hc as [Hc Hin].
  pose proof (nearest_result_shape customers here) as Hn.
  destruct (getNearestCustomerInfo customers (Some here)) as [n|].
  - exists n. split; [reflexivity|].
    destruct Hn as (before & after & -> & Hcn & Hb & Ha).
    apply in_app_or in Hin as [Hin|[Heq|Hin]].
    + apply lt_le. exact (Hb _ _ Hin Hc).
    + rewrite <- Heq in Hc. assert (E : distance n = JS.Int d) by congruence.
      rewrite E. apply le_refl. discriminate.
    + exact (Ha _ _ Hin Hc).
  - rewrite List.Forall_forall in Hn. rewrite (Hn _ Hin) in Hc. discriminate.
Qed.

Lemma no_row_closer_than_nearest_witness :
  exists n,
    @getNearestCustomerInfo Sample.math
      [Sample.nowhere; Sample.south; Sample.far; Sample.north; Sample.done]
      (Some Sample.here) = Some n /\
    JS.le (distance n) (JS.Int 243) = true.
Proof.
  apply (@no_row_closer_than_nearest Sample.math
           [Sample.nowhere; Sample.south; Sample.far; Sample.north;
            Sample.done]
           Sample.here "pasta"
           (@attachDistance Sample.math (Some Sample.here) Sample.far) 243).
  - vm_compute. left. reflexivity.
  - vm_compute. reflexivity.
Defined.

Lemma StronglySorted_before {A : Type} (R : A -> A -> Prop)
    (l1 l2 : list A) (e : A) :
  StronglySorted R (l1 ++ e :: l2) -> Forall (fun r => R r e) l1.
Proof.
  induction l1 as [|x l1 IH]; simpl; intros Hs; [constructor|].
  inversion Hs as [|? ? Hs' Hx]; subst. constructor; [|now apply IH].
  rewrite List.Forall_forall in Hx. apply Hx, in_or_app. right. now left.
Qed.

(** X5: when no row has a [NaN] distance, the rows marked "Within range!" (a
    distance of at most 100 m) are the first rows of the list: every row
    above such a row is marked too. *)
Theorem within_range_rows_first `{Math} (customers : list Customer)
    (currentLocation : option Coords.t) (searchQuery : string)
    (above below : list (WithDistance (option JS.integral)))
    (e : WithDistance (option JS.integral)) :
  Forall distanceNotNaN
    (customersWithDistance customers currentLocation searchQuery) ->
  sortedCustomers customers currentLocation searchQuery
    = above ++ e :: below ->
  Home.withinRange e = true ->
  Forall (fun r => Home.withinRange r = true) above.
Proof.
  intros Hnum Hout He.
  pose proof (sortedCustomers_in_order customers currentLocation searchQuery
                Hnum) as Hs.
  pose proof (sortedCustomers_not_NaN customers currentLocation searchQuery
                Hnum) as Hrows.
  rewrite Hout in Hs, Hrows. apply StronglySorted_before in Hs.
  apply Forall_app in Hrows as [Habove _].
  rewrite List.Forall_forall in Hs, Habove. apply List.Forall_forall.
  intros r Hr. specialize (Hs r Hr). specialize (Habove r Hr).
  unfold keepsBefore in Hs. rewrite compareDistance_after in Hs.
  unfold Home.withinRange, distanceNotNaN in *.
  destruct (distance r) as [dr|], (distance e) as [de|]; try discriminate.
  apply le_trans with de; [|exact He].
  apply lt_false_le; [|congruence|exact Hs].
  apply le_not_NaN in He. tauto.
Qed.

Lemma within_range_rows_first_witness :
  Forall (fun r => Home.withinRange r = true)
    [@attachDistance Sample.math (Some Sample.here) Sample.south].
Proof.
  apply (@within_range_rows_first Sample.math
           [Sample.nowhere; Sample.south; Sample.far; Sample.north;
            Sample.done]
           (Some Sample.here) ""
           [@attachDistance Sample.math (Some Sample.here) Sample.south]
           [@attachDistance Sample.math (Some Sample.here) Sample.far;
            @attachDistance Sample.math (Some Sample.here) Sample.nowhere]
           (@attachDistance Sample.math (Some Sample.here) Sample.north)).
  - no_NaN_rows.
  - vm_compute. reflexivity.
  - vm_compute. reflexivity.
Defined.

(** Whether a row shows a distance, from its customer's coordinates. *)
Lemma entry_showsDistance `{Math} (customers : list Customer)
    (currentLocation : option Coords.t) (searchQuery : string)
    (e : WithDistance (option JS.integral)) :
  In e (sortedCustomers customers currentLocation searchQuery) ->
  Home.showsDistance e =
  match currentLocation with
  | Some _ => negb (Home.showsNoGPS e)
  | None => false
  end.
Proof.
  intros He. rewrite (sortedCustomers_entry _ _ _ _ He).
  unfold Home.showsDistance, Home.showsNoGPS, Home.hasCoordinates,
    attachDistance. simpl. rewrite negb_involutive.
  destruct currentLocation as [here|]; [|reflexivity].
  destruct (latitude (customer e)) as [lat|],
    (longitude (customer e)) as [lon|]; simpl; try reflexivity.
  - destruct (JS.truthy lat && JS.truthy lon); reflexivity.
  - now rewrite andb_false_r.
Qed.

(** X6: with a known device position every row shows either its distance or
    the "No GPS" mark, never both and never neither; without a device
    position no row shows a distance, also not the rows with coordinates,
    which then show neither. *)
Theorem row_distance_or_no_gps `{Math} (customers : list Customer)
    (currentLocation : option Coords.t) (searchQuery : string)
    (e : WithDistance (option JS.integral)) :
  In e (sortedCustomers customers currentLocation searchQuery) ->
  Home.showsDistance e =
  match currentLocation with
  | Some _ => negb (Home.showsNoGPS e)
  | None => false
  end.
Proof. apply entry_showsDistance. Qed.

Lemma row_distance_or_no_gps_witness :
  Home.showsDistance
    (@attachDistance Sample.math (Some Sample.here) Sample.nowhere) =
  negb (Home.showsNoGPS
          (@attachDistance Sample.math (Some Sample.here) Sample.nowhere)).
Proof.
  apply (@row_distance_or_no_gps Sample.math
           [Sample.nowhere; Sample.south] (Some Sample.here) "").
  vm_compute. right. left. reflexivity.
Defined.

Lemma Array_sort_all_equal {A : Type} (comparefn : A -> A -> JS.integral)
    (l : list A) :
  (forall x y, In x l -> In y l -> keepsBefore comparefn x y) ->
  Array_sort comparefn l = l.
Proof.
  induction l as [|x l IH]; intros Hall; simpl; [reflexivity|].
  rewrite IH by (intros a b Ha Hb; apply Hall; now right).
  destruct l as [|y l]; [reflexivity|]. simpl.
  assert (Hxy : keepsBefore comparefn x y)
    by (apply Hall; [now left | right; now left]).
  unfold keepsBefore in Hxy. now rewrite Hxy.
Qed.

(** X7: without a device position the list is the customers that pass the
    filter, in input order, none with a distance. *)
Theorem without_position_input_order `{Math} (customers : list Customer)
    (searchQuery : string) :
  sortedCustomers customers None searchQuery =
  List.map (fun c => mkWithDistance c None)
    (filteredCustomers customers searchQuery).
Proof.
  unfold sortedCustomers, customersWithDistance.
  apply Array_sort_all_equal.
  intros x y Hx Hy.
  apply in_map_iff in Hx as (cx & <- & _).
  apply in_map_iff in Hy as (cy & <- & _).
  reflexivity.
Qed.

(** ** Searching *)

Lemma string_app_assoc (a b c : string) :
  ((a ++ b) ++ c = a ++ (b ++ c))%string.
Proof. induction a as [|x a IH]; simpl; [reflexivity | now rewrite IH]. Qed.

Lemma includes_empty (s : string) : JS.includes s "" = true.
Proof. apply includes_app. exists "", s. reflexivity. Qed.

Lemma includes_in_empty (q : string) : JS.includes "" q = true -> q = "".
Proof.
  intros (pre & post & E)%includes_app.
  destruct pre; [|discriminate]. destruct q; [reflexivity | discriminate].
Qed.

Lemma includes_trans (s b a : string) :
  JS.includes s b = true -> JS.includes b a = true -> JS.includes s a = true.
Proof.
  intros (p & q & ->)%includes_app (p' & q' & ->)%includes_app.
  apply includes_app. exists (p ++ p')%string, (q' ++ q)%string.
  now rewrite !string_app_assoc.
Qed.

Lemma optionalIncludes_trans (field : option string) (b a : string) :
  optionalIncludes field b = true -> JS.includes b a = true ->
  optionalIncludes field a = true.
Proof.
  unfold optionalIncludes. destruct field as [s|]; [|discriminate].
  intros [Ht Hs]%andb_true_iff Hba. rewrite Ht. simpl.
  eapply includes_trans; eassumption.
Qed.

(** A query that contains another one keeps no customer the other drops. *)
Lemma keepCustomer_narrower (wide narrow : string) (c : Customer) :
  JS.includes (JS.toLowerCase (JS.trim narrow))
    (JS.toLowerCase (JS.trim wide)) = true ->
  keepCustomer narrow c = true -> keepCustomer wide c = true.
Proof.
  unfold keepCustomer. intros Hinc.
  destruct (isDelivered c); [discriminate|].
  destruct (JS.toLowerCase (JS.trim wide)) as [|x a] eqn:Ea;
    [reflexivity|].
  destruct (JS.toLowerCase (JS.trim narrow)) as [|y b] eqn:Eb.
  { apply includes_in_empty in Hinc. discriminate. }
  simpl negb. cbv iota. rewrite !orb_true_iff.
  intros [[[Hn | Hn] | Hn] | Hn];
    [left; left; left | left; left; right | left; right | right];
    eauto using includes_trans, optionalIncludes_trans.
Qed.

Lemma sortInsert_front {A : Type} (comparefn : A -> A -> JS.integral)
    (x : A) (l : list A) :
  (forall z, In z l -> keepsBefore comparefn x z) ->
  sortInsert comparefn x l = x :: l.
Proof.
  destruct l as [|y l]; [reflexivity|]. intros Hall. simpl.
  assert (Hy : keepsBefore comparefn x y) by (apply Hall; now left).
  unfold keepsBefore in Hy. now rewrite Hy.
Qed.

Section SortFilter.

Context {A : Type} (comparefn : A -> A -> JS.integral) (P : A -> bool).
Variable D : A -> Prop.
Hypothesis comparefn_total :
  forall x y, D x -> D y ->
    JS.lt (JS.Int 0) (comparefn x y) = true -> keepsBefore comparefn y x.
Hypothesis comparefn_trans :
  forall x y z, D x -> D y -> D z ->
    keepsBefore comparefn x y -> keepsBefore comparefn y z ->
    keepsBefore comparefn x z.

Lemma sortInsert_filter_comm (x : A) (s : list A) :
  D x -> Forall D s ->
  StronglySorted (keepsBefore comparefn) s ->
  List.filter P (sortInsert comparefn x s) =
  if P x then sortInsert comparefn x (List.filter P s) else List.filter P s.
Proof.
  intros Dx Ds. induction 1 as [|y s Hs IH Hy].
  - simpl. destruct (P x); reflexivity.
  - apply Forall_cons in Ds as [Dy Ds].
    simpl sortInsert.
    destruct (JS.lt (JS.Int 0) (comparefn x y)) eqn:E.
    + change (List.filter P (y :: sortInsert comparefn x s))
        with (if P y then y :: List.filter P (sortInsert comparefn x s)
              else List.filter P (sortInsert comparefn x s)).
      rewrite (IH Ds).
      destruct (P x) eqn:Px, (P y) eqn:Py; simpl; rewrite ?Py, ?E;
        reflexivity.
    + change (List.filter P (x :: y :: s))
        with (if P x then x :: List.filter P (y :: s)
              else List.filter P (y :: s)).
      destruct (P x); [|reflexivity].
      symmetry. apply sortInsert_front.
      intros z Hz. apply filter_In in Hz as [[<-|Hz] _]; [exact E|].
      rewrite List.Forall_forall in Hy, Ds.
      apply (comparefn_trans x y z); auto.
Qed.

Lemma Array_sort_filter_comm (l : list A) :
  Forall D l ->
  List.filter P (Array_sort comparefn l) =
  Array_sort comparefn (List.filter P l).
Proof.
  induction l as [|x l IH]; intros Dl; [reflexivity|].
  apply Forall_cons in Dl as [Dx Dl].
  simpl Array_sort.
  rewrite sortInsert_filter_comm;
    [|exact Dx
     |eapply Permutation_Forall; [symmetry; apply Array_sort_perm | exact Dl]
     |now apply (Array_sort_sorted comparefn D)].
  simpl. rewrite (IH Dl). destruct (P x); reflexivity.
Qed.

End SortFilter.

(** X8: when no row of the list has a [NaN] distance, narrowing the search
    never reorders the list and never adds a row: when the (trimmed,
    lower-cased) query contains the earlier one, the new list is the earlier
    list with the rows that no longer match taken out.  In particular every
    search result is then the full list, filtered. *)
Theorem narrower_query_filters_rows `{Math} (customers : list Customer)
    (currentLocation : option Coords.t) (wide narrow : string) :
  Forall distanceNotNaN
    (customersWithDistance customers currentLocation wide) ->
  JS.includes (JS.toLowerCase (JS.trim narrow))
    (JS.toLowerCase (JS.trim wide)) = true ->
  sortedCustomers customers currentLocation narrow =
  List.filter (fun e => keepCustomer narrow (customer e))
    (sortedCustomers customers currentLocation wide).
Proof.
  intros Hnum Hinc. unfold sortedCustomers.
  rewrite (Array_sort_filter_comm compareDistance _ distanceNotNaN);
    [| intros x y _ _; apply compareDistance_total
     | intros x y z _ Hy _; now apply compareDistance_trans
     | exact Hnum].
  unfold customersWithDistance, filteredCustomers.
  rewrite filter_map_comm, filter_filter_and. simpl.
  do 2 f_equal. apply filter_ext. intros c.
  destruct (keepCustomer narrow c) eqn:Ek; [|now rewrite andb_false_r].
  now rewrite (keepCustomer_narrower wide narrow c Hinc Ek).
Qed.

Lemma narrower_query_filters_rows_witness :
  @sortedCustomers Sample.math
    [Sample.nowhere; Sample.south; Sample.far; Sample.north; Sample.done]
    (Some Sample.here) "Pizza" =
  List.filter (fun e => keepCustomer "Pizza" (customer e))
    (@sortedCustomers Sample.math
       [Sample.nowhere; Sample.south; Sample.far; Sample.north; Sample.done]
       (Some Sample.here) " p ").
Proof.
  apply (@narrower_query_filters_rows Sample.math).
  - no_NaN_rows.
  - reflexivity.
Defined.

Example encode_destination :
  SampleScreen.encode "6.5,-79.25 x" = "6.5%2C-79.25%20x".
Proof. reflexivity. Qed.

Example submit_latitude_only :
  @AddCustomer.handleSubmit SampleScreen.builtins SampleScreen.latitudeOnly =
  AddCustomer.Create
    (AddCustomer.Payload.mk "Ada" "1 Main Street" (Some 6.5%float) None
       None None).
Proof. vm_compute. reflexivity. Qed.

Example submit_too_far_north :
  @AddCustomer.handleSubmit SampleScreen.builtins SampleScreen.tooFarNorth =
  AddCustomer.ValidationError
    "Latitude must be a valid number between -90 and 90".
Proof. vm_compute. reflexivity. Qed.

(** ** Directions and status marks *)

Lemma openDirections_opens `{Builtins} (currentLocation : option Coords.t)
    (c : Customer) :
  (exists url,
     Home.openDirectionsInApp currentLocation c = Home.MapsShown c url) <->
  currentLocation <> None /\ Home.hasCoordinates c = true.
Proof.
  unfold Home.openDirectionsInApp, Home.hasCoordinates.
  destruct currentLocation as [here|];
    [|split; [intros [u Hu]; discriminate Hu | intros [E _]; congruence]].
  destruct (latitude c) as [lat|], (longitude c) as [lon|]; simpl;
    rewrite ?andb_false_r;
    try (split; [intros [u Hu]; discriminate Hu
                | intros [_ Hu]; discriminate Hu]).
  destruct (JS.truthy lat), (JS.truthy lon); simpl;
    try (split; [intros [u Hu]; discriminate Hu
                | intros [_ Hu]; discriminate Hu]).
  split; [intros _; split; congruence | intros _; eauto].
Qed.

(** X9: tapping the nearest-customer card always opens the maps sheet for
    that customer; it never ends in the "Location required" or "Invalid
    Location" alert. *)
Theorem directions_open_for_nearest `{Math} `{Builtins}
    (customers : list Customer) (currentLocation : option Coords.t)
    (n : WithDistance JS.integral) :
  getNearestCustomerInfo customers currentLocation = Some n ->
  exists url,
    Home.openDirectionsInApp currentLocation (customer n) =
    Home.MapsShown (customer n) url.
Proof.
  intros Hn. apply openDirections_opens.
  destruct currentLocation as [here|]; [|discriminate].
  split; [discriminate|].
  pose proof (nearest_result_shape customers here) as Hc.
  rewrite Hn in Hc. destruct Hc as (_ & _ & _ & Hc & _).
  apply measured_Some in Hc as [Hc _].
  apply candidate_spec in Hc as (lat & lon & El & Eo & Tl & To & _).
  unfold Home.hasCoordinates. rewrite El, Eo. simpl. now rewrite Tl, To.
Qed.

Lemma directions_open_for_nearest_witness :
  exists url,
    @Home.openDirectionsInApp SampleScreen.builtins (Some Sample.here)
      Sample.south = Home.MapsShown Sample.south url.
Proof.
  apply (@directions_open_for_nearest Sample.math SampleScreen.builtins
           [Sample.nowhere; Sample.south; Sample.far] (Some Sample.here)
           (mkWithDistance Sample.south (JS.Int 54))).
  vm_compute. reflexivity.
Defined.

(** X10: tapping a row opens the maps sheet exactly when the row shows a
    distance; a row without one (no device position, or coordinates that
    are missing or falsy) ends in an alert. *)
Theorem row_directions_iff_distance `{Math} `{Builtins}
    (customers : list Customer) (currentLocation : option Coords.t)
    (searchQuery : string) (e : WithDistance (option JS.integral)) :
  In e (sortedCustomers customers currentLocation searchQuery) ->
  (exists url,
     Home.openDirectionsInApp currentLocation (customer e) =
     Home.MapsShown (customer e) url) <->
  Home.showsDistance e = true.
Proof.
  intros He. rewrite openDirections_opens.
  rewrite (entry_showsDistance _ _ _ _ He). unfold Home.showsNoGPS.
  rewrite negb_involutive.
  destruct currentLocation as [here|]; split;
    try (intros [? ?]; congruence); try discriminate.
  intros Hc. split; [discriminate | exact Hc].
Qed.

Lemma row_directions_iff_distance_witness :
  (exists url,
     @Home.openDirectionsInApp SampleScreen.builtins (Some Sample.here)
       (customer (@attachDistance Sample.math (Some Sample.here)
                    Sample.nowhere)) =
     Home.MapsShown
       (customer (@attachDistance Sample.math (Some Sample.here)
                    Sample.nowhere)) url) <->
  Home.showsDistance
    (@attachDistance Sample.math (Some Sample.here) Sample.nowhere) = true.
Proof.
  apply (@row_directions_iff_distance Sample.math SampleScreen.builtins
           [Sample.nowhere; Sample.south] (Some Sample.here) "").
  vm_compute. right. left. reflexivity.
Defined.

Lemma statusColor_green (st : string) :
  Home.statusColor st = "#4CAF50" <-> JS.equalsIgnoringCase st "delivered".
Proof.
  unfold Home.statusColor, JS.equalsIgnoringCase. rewrite orEmpty_id.
  destruct (String.eqb_spec (JS.toLowerCase st) "delivered") as [E|E].
  - split; auto.
  - destruct (String.eqb (JS.toLowerCase st) "cancelled");
      (split; [discriminate | intros E'; now destruct E]).
Qed.

Lemma statusColor_red (st : string) :
  Home.statusColor st = "#f44336" <-> JS.equalsIgnoringCase st "cancelled".
Proof.
  unfold Home.statusColor, JS.equalsIgnoringCase. rewrite orEmpty_id.
  destruct (String.eqb_spec (JS.toLowerCase st) "delivered") as [E|E].
  - rewrite E. split; discriminate.
  - destruct (String.eqb_spec (JS.toLowerCase st) "cancelled") as [E'|E'].
    + split; auto.
    + split; [discriminate | intros E''; now destruct E'].
Qed.

(** X11: the status label of a row is never drawn in the delivered colour:
    the list holds no delivered customer, so the label is red for a
    cancelled status and orange for every other one. *)
Theorem rows_never_delivered_colour `{Math} (customers : list Customer)
    (currentLocation : option Coords.t) (searchQuery : string)
    (e : WithDistance (option JS.integral)) :
  In e (sortedCustomers customers currentLocation searchQuery) ->
  Home.statusColor (status (customer e)) =
  if String.eqb (JS.toLowerCase (status (customer e))) "cancelled"
  then "#f44336" else "#FF9800".
Proof.
  intros He. eapply Permutation_in in He; [|apply sortedCustomers_perm].
  unfold customersWithDistance, filteredCustomers in He.
  apply in_map_iff in He as (c & <- & Hc). simpl.
  apply filter_In in Hc as [_ Hk%keepCustomer_not_delivered].
  unfold isDelivered in Hk. unfold Home.statusColor. rewrite Hk.
  now rewrite orEmpty_id.
Qed.

Lemma rows_never_delivered_colour_witness :
  Home.statusColor
    (status (customer (@attachDistance Sample.math (Some Sample.here)
                         Sample.far))) =
  if String.eqb
       (JS.toLowerCase
          (status (customer (@attachDistance Sample.math (Some Sample.here)
                               Sample.far)))) "cancelled"
  then "#f44336" else "#FF9800".
Proof.
  apply (@rows_never_delivered_colour Sample.math
           [Sample.far; Sample.done] (Some Sample.here) "").
  vm_compute. left. reflexivity.
Defined.

(** X12: the nearest-customer card always offers "Mark Delivered", and its
    status label is never in the delivered colour: the nearest pick is never
    a delivered customer. *)
Theorem nearest_card_offers_mark_delivered `{Math}
    (customers : list Customer) (currentLocation : option Coords.t)
    (n : WithDistance JS.integral) :
  getNearestCustomerInfo customers currentLocation = Some n ->
  Home.offersMarkDelivered (status (customer n)) = true /\
  Home.statusColor (status (customer n)) <> "#4CAF50".
Proof.
  intros Hn. destruct currentLocation as [here|]; [|discriminate].
  pose proof (nearest_result_shape customers here) as Hc.
  rewrite Hn in Hc. destruct Hc as (_ & _ & _ & Hc & _).
  apply measured_Some in Hc as [Hc _].
  apply candidate_spec in Hc as (_ & _ & _ & _ & _ & _ & Hd & _).
  split.
  - unfold Home.offersMarkDelivered. apply negb_true_iff.
    destruct (String.eqb_spec
                (JS.toLowerCase (JS.orEmpty (status (customer n))))
                "delivered") as [E|E]; [|reflexivity].
    rewrite orEmpty_id in E. now destruct Hd.
  - now rewrite statusColor_green.
Qed.

Lemma nearest_card_offers_mark_delivered_witness :
  Home.offersMarkDelivered (status Sample.south) = true /\
  Home.statusColor (status Sample.south) <> "#4CAF50".
Proof.
  apply (@nearest_card_offers_mark_delivered Sample.math
           [Sample.done; Sample.south; Sample.far] (Some Sample.here)
           (mkWithDistance Sample.south (JS.Int 54))).
  vm_compute. reflexivity.
Defined.

(** X22: the nearest-customer card never shows a [NaN] distance: the
    distance of the nearest pick is below [Infinity], hence a number, and it
    is the value [calculateDistance] gives for the device position and the
    coordinates of that customer. *)
Theorem nearest_distance_is_a_number `{Math} (customers : list Customer)
    (here : Coords.t) (n : WithDistance JS.integral) :
  getNearestCustomerInfo customers (Some here) = Some n ->
  JS.lt (distance n) JS.Infinity = true /\
  distance n <> JS.NaN /\
  exists lat lon,
    latitude (customer n) = Some lat /\ longitude (customer n) = Some lon /\
    distance n =
      calculateDistance (Coords.latitude here) (Coords.longitude here)
        lat lon.
Proof.
  intros Hn. pose proof (nearest_result_shape customers here) as Hc.
  rewrite Hn in Hc. destruct Hc as (_ & _ & _ & Hc & _).
  pose proof (measured_not_NaN _ _ _ Hc) as Hnum.
  apply measured_Some in Hc as [Hc Hfin].
  apply candidate_spec in Hc as (lat & lon & El & Eo & _ & _ & _ & Ed).
  split; [exact Hfin|]. split; [exact Hnum|]. eauto.
Qed.

Lemma nearest_distance_is_a_number_witness :
  JS.lt (JS.Int 54) JS.Infinity = true /\
  JS.Int 54 <> JS.NaN /\
  exists lat lon,
    latitude Antipodal.nearBy = Some lat /\
    longitude Antipodal.nearBy = Some lon /\
    JS.Int 54 =
      @calculateDistance Antipodal.math (Coords.latitude Antipodal.device)
        (Coords.longitude Antipodal.device) lat lon.
Proof.
  apply (@nearest_distance_is_a_number Antipodal.math
           [Antipodal.opposite; Antipodal.nearBy] Antipodal.device
           (mkWithDistance Antipodal.nearBy (JS.Int 54))).
  vm_compute. reflexivity.
Defined.

(** ** The flash message on the home screen *)

(** X13: the success message of one screen is shown once on the home
    screen.  Mounting the home screen after [setFlash text], for a non-empty
    [text], makes the success modal visible with that text and empties the
    slot; any later mount, whatever happened to the modal in between, leaves
    the screen as it is; an empty message is consumed without being shown. *)
Theorem flash_shown_once_on_mount (s : Home.State) (slot : Flash.slot)
    (text : string) :
  text <> "" ->
  Home.successVisible
    (fst (Home.readFlash s (snd (Flash.setFlash text slot)))) = true /\
  Home.successText
    (fst (Home.readFlash s (snd (Flash.setFlash text slot)))) = text /\
  snd (Home.readFlash s (snd (Flash.setFlash text slot))) = None /\
  (forall s' slot', Home.readFlash s' (snd (Home.readFlash s slot'))
                    = (s', None)) /\
  Home.readFlash s (snd (Flash.setFlash "" slot)) = (s, None).
Proof.
  intros Ht. unfold Home.readFlash, Flash.setFlash, Flash.consumeFlash.
  simpl. destruct text as [|c text]; [congruence|]. simpl.
  repeat split. intros s' [[|c' t']|]; reflexivity.
Qed.

Lemma flash_shown_once_on_mount_witness :
  Home.successVisible
    (fst (Home.readFlash Home.initial
            (snd (Flash.setFlash "Customer added successfully"
                    Flash.initial)))) = true /\
  Home.successText
    (fst (Home.readFlash Home.initial
            (snd (Flash.setFlash "Customer added successfully"
                    Flash.initial)))) = "Customer added successfully" /\
  snd (Home.readFlash Home.initial
         (snd (Flash.setFlash "Customer added successfully"
                 Flash.initial))) = None /\
  (forall s' slot',
     Home.readFlash s' (snd (Home.readFlash Home.initial slot'))
     = (s', None)) /\
  Home.readFlash Home.initial (snd (Flash.setFlash "" Flash.initial))
  = (Home.initial, None).
Proof.
  apply (flash_shown_once_on_mount Home.initial Flash.initial
           "Customer added successfully").
  discriminate.
Defined.

(** ** Loading the customers *)

Lemma endLoad_flags (r : Home.Fetched) (s : Home.State) :
  Home.loading (Home.endLoad r s) = false /\
  Home.refreshing (Home.endLoad r s) = false /\
  Home.truthyMessage (Home.error (Home.endLoad r s))
    = negb (Home.usable r) || Home.truthyMessage (Home.error s).
Proof.
  destruct r as [[] [received|]|message]; simpl; repeat split.
  destruct message; reflexivity.
Qed.

Lemma runLoads_app (steps more : list Home.LoadStep) (s : Home.State) :
  Home.runLoads (steps ++ more) s =
  Home.runLoads more (Home.runLoads steps s).
Proof. apply fold_left_app. Qed.

(** X14: what is on the screen when a load comes back from its [await],
    whatever loads have begun or ended before it, overlapping or not.  The
    loading and refreshing marks are off.  A load that did not deliver a body
    with a truthy [success] and an array of customers shows the error card
    and keeps the customers.  A load that did replaces the customers and
    leaves the stored error alone, which only the beginning of a load clears:
    the list is shown when no error is stored, and otherwise the error card
    stays.  So a load that ends with no other step since it began shows the
    list exactly when its body is usable, while of two overlapping loads of
    which the first to end fails and the second succeeds, the error card
    remains, over the customers of the second. *)
Theorem load_end_keeps_stored_error (steps : list Home.LoadStep)
    (r : Home.Fetched) (s : Home.State) :
  let before := Home.runLoads steps s in
  let s' := Home.runLoads (steps ++ [Home.End r]) s in
  (Home.loading s' = false /\
   Home.refreshing s' = false /\
   Home.customers s' =
     match r with
     | Home.Resolved true (Some received) => received
     | _ => Home.customers before
     end /\
   Home.showsError s' =
     negb (Home.usable r) || Home.truthyMessage (Home.error before) /\
   Home.showsList s' =
     Home.usable r && negb (Home.truthyMessage (Home.error before))) /\
  Home.showsList (Home.runLoads (steps ++ [Home.Begin; Home.End r]) s)
    = Home.usable r /\
  Home.showsList (Home.runLoads (steps ++ [Home.Refresh; Home.End r]) s)
    = Home.usable r /\
  (forall (message : string) (received : list Customer),
     let overlapped :=
       Home.runLoads
         (steps ++ [Home.Begin; Home.Refresh;
                    Home.End (Home.Rejected message);
                    Home.End (Home.Resolved true (Some received))]) s in
     Home.showsError overlapped = true /\
     Home.showsList overlapped = false /\
     Home.customers overlapped = received).
Proof.
  cbv zeta. rewrite !runLoads_app.
  set (t := Home.runLoads steps s).
  split; [|split; [|split]].
  - change (Home.runLoads [Home.End r] t) with (Home.endLoad r t).
    destruct (endLoad_flags r t) as (Hl & Hr & He).
    unfold Home.showsList, Home.showsError. rewrite Hl, Hr, He.
    repeat split.
    + destruct r as [[] [received|]|message]; reflexivity.
    + simpl. now rewrite andb_true_r.
    + simpl. now rewrite negb_orb, negb_involutive.
  - destruct r as [[] [received|]|message]; try reflexivity.
    unfold Home.showsList. simpl. now destruct message.
  - destruct r as [[] [received|]|message]; try reflexivity.
    unfold Home.showsList. simpl. now destruct message.
  - intros message received. cbv zeta. rewrite runLoads_app. fold t.
    unfold Home.showsError, Home.showsList. simpl.
    destruct message; repeat split; reflexivity.
Qed.

Example overlapping_loads :
  let s := Home.runLoads
             [Home.Begin; Home.Refresh; Home.End (Home.Rejected "offline");
              Home.End (Home.Resolved true (Some [Sample.north]))]
             Home.initial in
  Home.error s = Some "offline" /\ Home.customers s = [Sample.north] /\
  Home.showsError s = true /\ Home.showsList s = false.
Proof. repeat split; reflexivity. Qed.

(** ** [handleSubmit] *)

Lemma SFcompare_swap (x y : spec_float) :
  SFcompare y x = option_map CompOpp (SFcompare x y).
Proof.
  destruct x as [sx|sx| |sx mx ex], y as [sy|sy| |sy my ey]; simpl;
    try reflexivity; try (destruct sx; reflexivity);
    try (destruct sy; reflexivity); try (destruct sx, sy; reflexivity).
  destruct sx, sy; try reflexivity; f_equal;
    rewrite (Z.compare_antisym ex ey);
    destruct (ex ?= ey); simpl; try reflexivity;
    rewrite ?CompOpp_involutive;
    change Eq with (CompOpp Eq) at 1;
    rewrite Pos.compare_cont_antisym; simpl; rewrite ?CompOpp_involutive;
    reflexivity.
Qed.

(** For numbers that are not [NaN], [x < y] fails exactly when [y <= x]. *)
Lemma float_ltb_leb (x y : float) :
  PrimFloat.eqb x x = true -> PrimFloat.eqb y y = true ->
  PrimFloat.ltb x y = negb (PrimFloat.leb y x).
Proof.
  rewrite !FloatAxioms.eqb_spec, ltb_spec, leb_spec.
  unfold SFeqb, SFltb, SFleb. rewrite (SFcompare_swap (Prim2SF x) (Prim2SF y)).
  intros Hx Hy.
  destruct (SFcompare (Prim2SF x) (Prim2SF y)) as [[]|] eqn:E;
    try reflexivity.
  exfalso.
  destruct (Prim2SF x) as [sx|sx| |sx mx ex], (Prim2SF y) as [sy|sy| |sy my ey];
    simpl in *; try discriminate.
Qed.

Lemma SFcompare_refl (x : spec_float) :
  x <> S754_nan -> SFcompare x x = Some Eq.
Proof.
  destruct x as [sx|sx| |sx mx ex]; simpl; intros Hx;
    try reflexivity; try congruence.
  - destruct sx; reflexivity.
  - rewrite Z.compare_refl, Pos.compare_cont_refl. destruct sx; reflexivity.
Qed.

Lemma float_leb_not_nan (x y : float) :
  PrimFloat.leb x y = true ->
  PrimFloat.eqb x x = true /\ PrimFloat.eqb y y = true.
Proof.
  rewrite !FloatAxioms.eqb_spec, leb_spec. unfold SFeqb, SFleb.
  intros Hle.
  assert (Prim2SF x <> S754_nan /\ Prim2SF y <> S754_nan) as [Hx Hy].
  { destruct (Prim2SF x), (Prim2SF y); simpl in Hle;
      split; congruence. }
  now rewrite !SFcompare_refl.
Qed.

Lemma orUndefined_not_empty (s : string) :
  AddCustomer.orUndefined s <> Some "".
Proof. destruct s; simpl; discriminate. Qed.

(** The range test of [handleSubmit] lets a number through exactly when it
    lies between the bounds. *)
Lemma range_test (x lo hi : float) :
  PrimFloat.eqb lo lo = true -> PrimFloat.eqb hi hi = true ->
  AddCustomer.isNaN x || PrimFloat.ltb x lo || PrimFloat.ltb hi x = false <->
  PrimFloat.leb lo x = true /\ PrimFloat.leb x hi = true.
Proof.
  intros Elo Ehi. unfold AddCustomer.isNaN. split.
  - rewrite !orb_false_iff, negb_false_iff. intros [[Hx Hlo] Hhi].
    rewrite (float_ltb_leb x lo Hx Elo) in Hlo.
    rewrite (float_ltb_leb hi x Ehi Hx) in Hhi.
    apply negb_false_iff in Hlo, Hhi. auto.
  - intros [Hlo Hhi].
    destruct (float_leb_not_nan _ _ Hlo) as [_ Ex].
    rewrite Ex. simpl.
    rewrite (float_ltb_leb x lo Ex Elo), (float_ltb_leb hi x Ehi Ex).
    now rewrite Hlo, Hhi.
Qed.

Lemma float_zero_cases (x : float) :
  PrimFloat.eqb x 0 = true -> x = 0%float \/ x = (-0)%float.
Proof.
  rewrite FloatAxioms.eqb_spec. unfold SFeqb.
  change (Prim2SF 0) with (S754_zero false).
  destruct (Prim2SF x) as [s|s| |s m e] eqn:E; simpl;
    try (destruct s; discriminate); try discriminate.
  intros _. destruct s; [right | left]; apply Prim2SF_inj; rewrite E;
    reflexivity.
Qed.


(** What [handleSubmit] does for every form: the outcome by cases. *)
Lemma handleSubmit_cases `{Builtins} (f : AddCustomer.Form.t) :
  (JS.trim (AddCustomer.Form.name f) <> "" /\
   JS.trim (AddCustomer.Form.address f) <> "" /\
   AddCustomer.coordinateAccepted (AddCustomer.Form.latitude f) 90 /\
   AddCustomer.coordinateAccepted (AddCustomer.Form.longitude f) 180 /\
   AddCustomer.handleSubmit f =
   AddCustomer.Create
     {| AddCustomer.Payload.name := JS.trim (AddCustomer.Form.name f);
        AddCustomer.Payload.address := JS.trim (AddCustomer.Form.address f);
        AddCustomer.Payload.latitude :=
          AddCustomer.coordinateValue (AddCustomer.Form.latitude f);
        AddCustomer.Payload.longitude :=
          AddCustomer.coordinateValue (AddCustomer.Form.longitude f);
        AddCustomer.Payload.orderDetails :=
          AddCustomer.orUndefined (JS.trim (AddCustomer.Form.orderDetails f));
        AddCustomer.Payload.deliveryPerson :=
          AddCustomer.orUndefined
            (JS.trim (AddCustomer.Form.deliveryPerson f)) |}) \/
  ((JS.trim (AddCustomer.Form.name f) = "" \/
    JS.trim (AddCustomer.Form.address f) = "" \/
    ~ AddCustomer.coordinateAccepted (AddCustomer.Form.latitude f) 90 \/
    ~ AddCustomer.coordinateAccepted (AddCustomer.Form.longitude f) 180) /\
   exists message,
     AddCustomer.handleSubmit f = AddCustomer.ValidationError message).
Proof.
  unfold AddCustomer.handleSubmit, AddCustomer.coordinateAccepted,
    AddCustomer.coordinateValue.
  destruct (JS.trim (AddCustomer.Form.name f)) as [|c1 s1] eqn:En; simpl.
  { right. split; [now left | eauto]. }
  destruct (JS.trim (AddCustomer.Form.address f)) as [|c2 s2] eqn:Ea; simpl.
  { right. split; [right; now left | eauto]. }
  destruct (JS.trim (AddCustomer.Form.latitude f)) as [|c3 s3] eqn:Elat;
    simpl.
  - destruct (JS.trim (AddCustomer.Form.longitude f)) as [|c4 s4] eqn:Elon;
      simpl.
    + left. repeat split; auto; discriminate.
    + destruct (_ || _ || _) eqn:Et.
      * right. split; [|eauto]. right; right; right.
        intros [E | E]; [discriminate|].
        apply (range_test _ (-180) 180 eq_refl eq_refl) in E. congruence.
      * left. apply (range_test _ (-180) 180 eq_refl eq_refl) in Et.
        repeat split; auto; discriminate.
  - destruct (_ || _ || _) eqn:Et.
    + right. split; [|eauto]. right; right; left.
      intros [E | E]; [discriminate|].
      apply (range_test _ (-90) 90 eq_refl eq_refl) in E. congruence.
    + apply (range_test _ (-90) 90 eq_refl eq_refl) in Et.
      destruct (JS.trim (AddCustomer.Form.longitude f)) as [|c4 s4] eqn:Elon;
        simpl.
      * left. repeat split; auto; discriminate.
      * destruct (_ || _ || _) eqn:Et'.
        -- right. split; [|eauto]. right; right; right.
           intros [E | E]; [discriminate|].
           apply (range_test _ (-180) 180 eq_refl eq_refl) in E. congruence.
        -- left. apply (range_test _ (-180) 180 eq_refl eq_refl) in Et'.
           repeat split; auto; discriminate.
Qed.

(** X15: what [handleSubmit] sends has passed every check.  The name and the
    address are the trimmed inputs and not empty; a latitude in the payload
    is the number of a non-blank input and lies in [-90, 90], a longitude in
    [-180, 180] (so neither is [NaN]); a blank coordinate input leaves the
    field out; order details and delivery person are left out rather than
    sent empty. *)
Theorem submitted_payload_valid `{Builtins} (f : AddCustomer.Form.t)
    (p : AddCustomer.Payload.t) :
  AddCustomer.handleSubmit f = AddCustomer.Create p ->
  AddCustomer.Payload.name p = JS.trim (AddCustomer.Form.name f) /\
  AddCustomer.Payload.name p <> "" /\
  AddCustomer.Payload.address p = JS.trim (AddCustomer.Form.address f) /\
  AddCustomer.Payload.address p <> "" /\
  match AddCustomer.Payload.latitude p with
  | Some lat =>
      JS.trim (AddCustomer.Form.latitude f) <> "" /\
      lat = parseFloat (AddCustomer.Form.latitude f) /\
      PrimFloat.leb (-90) lat = true /\ PrimFloat.leb lat 90 = true
  | None => JS.trim (AddCustomer.Form.latitude f) = ""
  end /\
  match AddCustomer.Payload.longitude p with
  | Some lng =>
      JS.trim (AddCustomer.Form.longitude f) <> "" /\
      lng = parseFloat (AddCustomer.Form.longitude f) /\
      PrimFloat.leb (-180) lng = true /\ PrimFloat.leb lng 180 = true
  | None => JS.trim (AddCustomer.Form.longitude f) = ""
  end /\
  AddCustomer.Payload.orderDetails p <> Some "" /\
  AddCustomer.Payload.deliveryPerson p <> Some "".
Proof.
  intros Hs.
  destruct (handleSubmit_cases f)
    as [(Hn & Ha & Hlat & Hlon & E) | (_ & message & E)];
    rewrite E in Hs; [|discriminate].
  injection Hs as <-. simpl.
  repeat split; auto using orUndefined_not_empty.
  - unfold AddCustomer.coordinateValue.
    destruct Hlat as [Hb | [Hlo Hhi]].
    + now rewrite Hb.
    + destruct (JS.trim (AddCustomer.Form.latitude f)) eqn:Et; simpl;
        [reflexivity | repeat split; auto; discriminate].
  - unfold AddCustomer.coordinateValue.
    destruct Hlon as [Hb | [Hlo Hhi]].
    + now rewrite Hb.
    + destruct (JS.trim (AddCustomer.Form.longitude f)) eqn:Et; simpl;
        [reflexivity | repeat split; auto; discriminate].
Qed.

Lemma submitted_payload_valid_witness :
  AddCustomer.Payload.name
    (AddCustomer.Payload.mk "Ada" "1 Main Street" (Some 6.5%float) None
       None None) =
  JS.trim (AddCustomer.Form.name SampleScreen.latitudeOnly) /\
  PrimFloat.leb (-90) 6.5 = true /\ PrimFloat.leb 6.5 90 = true.
Proof.
  pose proof (@submitted_payload_valid SampleScreen.builtins
                SampleScreen.latitudeOnly
                (AddCustomer.Payload.mk "Ada" "1 Main Street"
                   (Some 6.5%float) None None None)) as Hv.
  simpl in Hv.
  destruct Hv as (Hn & _ & _ & _ & (_ & _ & Hlo & Hhi) & _).
  - vm_compute. reflexivity.
  - auto.
Defined.

(** A record with a missing coordinate gets no distance and is never the
    nearest pick. *)
Lemma missing_coordinate_unranked `{Math} (c : Customer) :
  latitude c = None \/ longitude c = None ->
  (forall currentLocation,
     distance (attachDistance currentLocation c) = None) /\
  (forall here, candidate here c = None) /\
  Home.hasCoordinates c = false.
Proof.
  unfold attachDistance, candidate, Home.hasCoordinates.
  intros [E | E]; rewrite E; simpl.
  - repeat split; intros [here|]; reflexivity.
  - repeat split; try (intros [here|]); destruct (latitude c);
      simpl; rewrite ?andb_false_r; reflexivity.
Qed.

(** X16: the two coordinates are checked one by one, not as a pair: a form
    with a valid latitude and a blank longitude is sent, with a latitude and
    no longitude; on the home screen a customer with these coordinates gets
    no distance, is never the nearest pick and is drawn as "No GPS". *)
Theorem latitude_alone_accepted_then_unranked `{Math} `{Builtins}
    (f : AddCustomer.Form.t) :
  JS.trim (AddCustomer.Form.name f) <> "" ->
  JS.trim (AddCustomer.Form.address f) <> "" ->
  JS.trim (AddCustomer.Form.latitude f) <> "" ->
  PrimFloat.leb (-90) (parseFloat (AddCustomer.Form.latitude f)) = true ->
  PrimFloat.leb (parseFloat (AddCustomer.Form.latitude f)) 90 = true ->
  JS.trim (AddCustomer.Form.longitude f) = "" ->
  exists p,
    AddCustomer.handleSubmit f = AddCustomer.Create p /\
    AddCustomer.Payload.latitude p
      = Some (parseFloat (AddCustomer.Form.latitude f)) /\
    AddCustomer.Payload.longitude p = None /\
    forall c, AddCustomer.carries c p ->
      (forall currentLocation,
         distance (attachDistance currentLocation c) = None) /\
      (forall here, candidate here c = None) /\
      Home.hasCoordinates c = false.
Proof.
  intros Hn Ha Hlat Hlo Hhi Hlon.
  assert (Hrange : AddCustomer.coordinateAccepted
                     (AddCustomer.Form.latitude f) 90) by (right; auto).
  assert (Hblank : AddCustomer.coordinateAccepted
                     (AddCustomer.Form.longitude f) 180) by (now left).
  destruct (handleSubmit_cases f)
    as [(_ & _ & _ & _ & E) | ([C | [C | [C | C]]] & _)];
    try contradiction.
  assert (Hv : AddCustomer.coordinateValue (AddCustomer.Form.latitude f)
               = Some (parseFloat (AddCustomer.Form.latitude f))).
  { unfold AddCustomer.coordinateValue.
    destruct (JS.trim (AddCustomer.Form.latitude f));
      [congruence | reflexivity]. }
  assert (Hw : AddCustomer.coordinateValue (AddCustomer.Form.longitude f)
               = None).
  { unfold AddCustomer.coordinateValue. now rewrite Hlon. }
  rewrite Hv, Hw in E. eexists. split; [exact E|].
  split; [reflexivity|]. split; [reflexivity|].
  intros c (_ & _ & _ & Eo & _). simpl in Eo.
  apply missing_coordinate_unranked. now right.
Qed.

Lemma latitude_alone_accepted_then_unranked_witness :
  exists p,
    @AddCustomer.handleSubmit SampleScreen.builtins SampleScreen.latitudeOnly
      = AddCustomer.Create p /\
    AddCustomer.Payload.latitude p = Some 6.5%float /\
    AddCustomer.Payload.longitude p = None /\
    forall c, AddCustomer.carries c p ->
      (forall currentLocation,
         distance (@attachDistance Sample.math currentLocation c) = None) /\
      (forall here, @candidate Sample.math here c = None) /\
      Home.hasCoordinates c = false.
Proof.
  apply (@latitude_alone_accepted_then_unranked Sample.math
           SampleScreen.builtins SampleScreen.latitudeOnly);
    vm_compute; congruence.
Defined.

(** X17: a latitude of 0 passes the checks of [handleSubmit] and is sent;
    on the home screen a customer with that latitude gets no distance, is
    never the nearest pick and is drawn as "No GPS". *)
Theorem zero_latitude_accepted_then_unranked `{Math} `{Builtins}
    (f : AddCustomer.Form.t) :
  JS.trim (AddCustomer.Form.name f) <> "" ->
  JS.trim (AddCustomer.Form.address f) <> "" ->
  JS.trim (AddCustomer.Form.latitude f) <> "" ->
  PrimFloat.eqb (parseFloat (AddCustomer.Form.latitude f)) 0 = true ->
  AddCustomer.coordinateAccepted (AddCustomer.Form.longitude f) 180 ->
  exists p,
    AddCustomer.handleSubmit f = AddCustomer.Create p /\
    AddCustomer.Payload.latitude p
      = Some (parseFloat (AddCustomer.Form.latitude f)) /\
    forall c, AddCustomer.carries c p ->
      (forall currentLocation,
         distance (attachDistance currentLocation c) = None) /\
      (forall here, candidate here c = None) /\
      Home.hasCoordinates c = false.
Proof.
  intros Hn Ha Hlat Hz Hlon.
  assert (Hrange : AddCustomer.coordinateAccepted
                     (AddCustomer.Form.latitude f) 90).
  { right. destruct (float_zero_cases _ Hz) as [-> | ->];
      split; reflexivity. }
  destruct (handleSubmit_cases f)
    as [(_ & _ & _ & _ & E) | ([C | [C | [C | C]]] & _)];
    try contradiction.
  assert (Hv : AddCustomer.coordinateValue (AddCustomer.Form.latitude f)
               = Some (parseFloat (AddCustomer.Form.latitude f))).
  { unfold AddCustomer.coordinateValue.
    destruct (JS.trim (AddCustomer.Form.latitude f));
      [congruence | reflexivity]. }
  rewrite Hv in E. eexists. split; [exact E|].
  split; [reflexivity|].
  intros c (_ & _ & El & _). simpl in El.
  assert (Hzero : JS.isZero (latitude c) = true) by (rewrite El; exact Hz).
  repeat split.
  - intros loc. rewrite attachDistance_zero; auto.
  - intros here. apply candidate_zero. auto.
  - unfold Home.hasCoordinates.
    now rewrite (isZero_not_truthy _ Hzero).
Qed.

Lemma zero_latitude_accepted_then_unranked_witness :
  exists p,
    @AddCustomer.handleSubmit SampleScreen.builtins SampleScreen.onEquator
      = AddCustomer.Create p /\
    AddCustomer.Payload.latitude p = Some 0%float /\
    forall c, AddCustomer.carries c p ->
      (forall currentLocation,
         distance (@attachDistance Sample.math currentLocation c) = None) /\
      (forall here, @candidate Sample.math here c = None) /\
      Home.hasCoordinates c = false.
Proof.
  apply (@zero_latitude_accepted_then_unranked Sample.math
           SampleScreen.builtins SampleScreen.onEquator);
    try (vm_compute; congruence).
  right. split; vm_compute; reflexivity.
Defined.
